(** * Smart Reminder: the reminder scheduling and delivery loop of app.py

    A shallow embedding of [src/app.py]: the [Reminder] table, the e-mail
    helper [send_email], the scheduler job [check_and_send_reminders] and the
    form handler [index], with the properties the specification states about
    them.

    Conventions.
    - A string that has come through UTF-8 (a form field, a table column, a
      credential) holds no lone surrogate and is the list of its Unicode
      scalar values ([text]); a Python [str] in general is the list of its
      code points, surrogates included ([pystr]).
    - A naive [datetime] is the record of its fields; comparison is the
      lexicographic one Python performs.
    - The table [reminders] is a finite map from the primary key [id] to the
      remaining columns.
    - The outside world (process environment, SMTP server, wall clock) is
      explicit: the clock reading is an argument of each operation, and what
      happens inside the [with smtplib.SMTP_SSL] block is an oracle indexed
      by the number of sessions opened so far.
    - Database calls (query, insert, commit) are taken to succeed: the source
      wraps none of them in a handler, and the specification files their
      failure under the crash of a whole firing, not under a reminder. *)

From Stdlib Require Import ZArith NArith Lia.
From stdpp Require Import gmap list strings fin_maps.

Local Open Scope Z_scope.

(** ** Python strings *)

(** A string without lone surrogates, as the list of its Unicode scalar
    values numbered in order: an element below 55296 is that code point, an
    element from 55296 on stands for the code point 2048 higher, so that no
    element denotes a surrogate. Text decoded from UTF-8 is of this kind:
    the fields of a submitted form and the columns of the table. *)
Definition text := list N.

(** An ASCII literal as a Python string. *)
Definition py (s : string) : text :=
  map Ascii.N_of_ascii (String.list_ascii_of_string s).

(** [str.isspace] on one code point: the characters [str.strip()] removes. *)
Definition isspace (c : N) : bool :=
  ((9 <=? c) && (c <=? 13) || (28 <=? c) && (c <=? 32)
   || (c =? 133) || (c =? 160) || (c =? 5760)
   || (8192 <=? c) && (c <=? 8202)
   || (c =? 8232) || (c =? 8233) || (c =? 8239) || (c =? 8287)
   || (c =? 12288))%N.

Fixpoint lstrip (s : text) : text :=
  match s with
  | c :: s' => if isspace c then lstrip s' else s
  | [] => []
  end.

Definition rstrip (s : text) : text := reverse (lstrip (reverse s)).

(** [s.strip()] *)
Definition strip (s : text) : text := rstrip (lstrip s).

(** Truth value of a string: [not s] holds exactly for the empty string. *)
Definition truthy (s : text) : bool :=
  match s with [] => false | _ => true end.

(** Truth value of [os.environ.get(k)]: [None] and the empty string are false. *)
Definition truthy_opt (o : option text) : bool :=
  match o with Some s => truthy s | None => false end.

(** A Python [str] in general: the list of its code points, which may be
    surrogates (55296 to 57343). This is what a parameter annotated [str]
    can receive. *)
Inductive pystr := Str (code_points : list N).

(** The code point of a scalar value. *)
Definition scalar_code (n : N) : N :=
  if (n <? 55296)%N then n else (n + 2048)%N.

(** A [text] as the Python [str] it is. *)
Definition of_text (s : text) : pystr := Str (map scalar_code s).
Coercion of_text : text >-> pystr.

Definition is_surrogate (c : N) : bool := ((55296 <=? c) && (c <=? 57343))%N.

(** Whether [s.encode("utf-8")] succeeds: it raises [UnicodeEncodeError] on
    a surrogate. *)
Definition encodes (s : pystr) : bool :=
  match s with Str l => forallb (fun c => negb (is_surrogate c)) l end.

(** Concatenation of Python strings. *)
Definition str_app (s1 s2 : pystr) : pystr :=
  match s1, s2 with Str l1, Str l2 => Str (l1 ++ l2) end.

(** ** Naive datetimes *)

Module Datetime.

Record datetime := mkdt {
  year : Z; month : Z; day : Z;
  hour : Z; minute : Z; second : Z; microsecond : Z
}.

Definition lex (c1 c2 : comparison) : comparison :=
  match c1 with Eq => c2 | _ => c1 end.

(** Python compares naive datetimes field by field, most significant first. *)
Definition compare (a b : datetime) : comparison :=
  lex (year a ?= year b)
  (lex (month a ?= month b)
  (lex (day a ?= day b)
  (lex (hour a ?= hour b)
  (lex (minute a ?= minute b)
  (lex (second a ?= second b)
       (microsecond a ?= microsecond b)))))).

(** [a <= b] *)
Definition leb (a b : datetime) : bool :=
  match compare a b with Gt => false | _ => true end.

(** [a < b], i.e. [b > a] *)
Definition ltb (a b : datetime) : bool :=
  match compare a b with Lt => true | _ => false end.

Definition le (a b : datetime) : Prop := leb a b = true.
Definition lt (a b : datetime) : Prop := ltb a b = true.

End Datetime.

Abbreviation datetime := Datetime.datetime.

(** ** The model: one row of table [reminders], without its primary key *)

Record Reminder := mkReminder {
  email     : text;
  message   : text;
  remind_at : datetime;
  sent      : bool
}.

(** [reminder.sent = True] *)
Definition set_sent (r : Reminder) : Reminder :=
  {| email := email r; message := message r;
     remind_at := remind_at r; sent := true |}.

(** The table, keyed by [id]. *)
Abbreviation Table := (gmap Z Reminder).

(** The [filter] of the scheduler's query:
    [Reminder.remind_at <= now_ist, Reminder.sent == False]. *)
Definition is_due (now_ist : datetime) (r : Reminder) : bool :=
  Datetime.leb (remind_at r) now_ist && negb (sent r).

(** [Reminder.query.filter(...).all()]: the rows of the table that pass the
    filter, each with its key, in the table's enumeration order. *)
Definition due_reminders (now_ist : datetime) (db : Table) : list (Z * Reminder) :=
  filter (fun p => is_due now_ist p.2 = true) (map_to_list db).

(** ** Python exceptions *)

(** The exception classes the SMTP exchange can raise: those of [smtplib],
    the operating system errors they derive from, and other classes under
    [Exception]. What lies outside [Exception] ([KeyboardInterrupt],
    [SystemExit]) is no failure of the exchange and is not modelled. *)
Inductive ExcClass :=
  | Exception
  | ValueError
  | UnicodeError
  | UnicodeEncodeError
  | OSError
  | ConnectionError
  | ConnectionRefusedError
  | TimeoutError
  | SSLError
  | SMTPException
  | SMTPNotSupportedError
  | SMTPServerDisconnected
  | SMTPResponseException
  | SMTPSenderRefused
  | SMTPRecipientsRefused
  | SMTPDataError
  | SMTPConnectError
  | SMTPHeloError
  | SMTPAuthenticationError.

(** The direct base class; [Exception] is the root of the classes modelled. *)
Definition base (c : ExcClass) : option ExcClass :=
  match c with
  | Exception => None
  | ValueError => Some Exception
  | UnicodeError => Some ValueError
  | UnicodeEncodeError => Some UnicodeError
  | OSError => Some Exception
  | ConnectionError => Some OSError
  | ConnectionRefusedError => Some ConnectionError
  | TimeoutError => Some OSError
  | SSLError => Some OSError
  | SMTPException => Some OSError
  | SMTPNotSupportedError => Some SMTPException
  | SMTPServerDisconnected => Some SMTPException
  | SMTPResponseException => Some SMTPException
  | SMTPSenderRefused => Some SMTPResponseException
  | SMTPRecipientsRefused => Some SMTPException
  | SMTPDataError => Some SMTPResponseException
  | SMTPConnectError => Some SMTPResponseException
  | SMTPHeloError => Some SMTPResponseException
  | SMTPAuthenticationError => Some SMTPResponseException
  end.

Global Instance ExcClass_eq_dec : EqDecision ExcClass.
Proof. solve_decision. Defined.

(** [issubclass(c, d)], by walking up from [c]; the hierarchy is at most five
    classes deep. *)
Fixpoint issubclass_fuel (fuel : nat) (c d : ExcClass) : bool :=
  if decide (c = d) then true
  else match fuel, base c with
       | S fuel', Some b => issubclass_fuel fuel' b d
       | _, _ => false
       end.

Definition issubclass (c d : ExcClass) : bool := issubclass_fuel 5 c d.

(** What a Python call does: it returns a value or raises. *)
Inductive PyResult (A : Type) :=
  | Returned (a : A)
  | Raised (e : ExcClass).
Arguments Returned {A} a.
Arguments Raised {A} e.

(** ** Log records, one constructor per [logger] call of the source *)

Inductive LogEntry :=
  | ErrNotConfigured                       (* error: EMAIL_USER or EMAIL_PASS not configured. *)
  | EmailSent (to_email : pystr)           (* info: Email sent to %s *)
  | ErrAuthentication                      (* error: SMTP authentication failed. *)
  | ErrSmtp (exc : ExcClass)               (* error: SMTP error: %s *)
  | ErrUnexpected (exc : ExcClass)         (* error: Unexpected error sending email: %s *)
  | NoPending (now_ist : datetime)         (* debug: No pending reminders at %s IST *)
  | Processing (id : Z) (to_email : text)  (* info: Processing reminder id=%s for %s *)
  | MarkedSent (id : Z)                    (* info: Reminder id=%s marked as sent. *)
  | WillRetry (id : Z)                     (* warning: Failed to send reminder id=%s, will retry next cycle. *)
  | JobCrashed (exc : ExcClass)            (* error: Scheduler job crashed: %s *)
  | Scheduled (id : Z) (to_email : text) (at_ : datetime). (* info: Reminder id=%s scheduled for %s *)

(** ** The outside world and the program state *)

(** The message handed to the SMTP server. *)
Record Mail := mkMail {
  mail_from : text;
  mail_to : pystr;
  mail_subject : text;
  mail_body : pystr
}.

(** The environment the process runs in: the two credentials read with
    [os.environ.get], and the SMTP server. [smtp_exchange w n pass m] is what
    the [n]-th [with] block does as a whole: connecting, logging in,
    serialising the message with [msg.as_string()], [sendmail], and quitting.
    It returns when all of that completes and raises what any of it
    raises. *)
Record World := mkWorld {
  EMAIL_USER : option text;
  EMAIL_PASS : option text;
  smtp_exchange : nat -> text -> Mail -> PyResult unit
}.

Record State := mkState {
  db : Table;                (* the committed contents of table reminders *)
  connections : nat;         (* SMTP sessions opened so far *)
  log : list LogEntry        (* what the logger has received, oldest first *)
}.

(** A computation over the state that returns or raises. *)
Definition Job (A : Type) : Type := State -> PyResult A * State.

Definition ret {A} (a : A) : Job A := fun st => (Returned a, st).

Definition bind {A B} (m : Job A) (k : A -> Job B) : Job B :=
  fun st =>
    match m st with
    | (Returned a, st') => k a st'
    | (Raised e, st') => (Raised e, st')
    end.

Declare Scope job_scope.
Delimit Scope job_scope with job.
Notation "x <- m ;; k" := (bind m (fun x => k))
  (at level 100, m at next level, right associativity) : job_scope.
Notation "m ;;; k" := (bind m (fun _ => k))
  (at level 100, right associativity) : job_scope.
Local Open Scope job_scope.

(** [try: body except C1: h1 except C2: h2 ...]: the first clause whose class
    the raised exception is an instance of handles it; with no such clause the
    exception propagates. *)
Definition try_except {A} (body : Job A)
    (handlers : list (ExcClass * (ExcClass -> Job A))) : Job A :=
  fun st =>
    match body st with
    | (Returned a, st') => (Returned a, st')
    | (Raised e, st') =>
        match List.find (fun h => issubclass e h.1) handlers with
        | Some h => h.2 e st'
        | None => (Raised e, st')
        end
    end.

(** [for x in l: f(x)] *)
Fixpoint for_each {A} (l : list A) (f : A -> Job unit) : Job unit :=
  match l with
  | [] => ret tt
  | x :: l' => f x ;;; for_each l' f
  end.

Definition logger (e : LogEntry) : Job unit :=
  fun st => (Returned tt,
             {| db := db st; connections := connections st; log := log st ++ [e] |}).

(** The [with smtplib.SMTP_SSL(...) as server: login; sendmail] block. *)
Definition smtp_session (w : World) (password : text) (m : Mail) : Job unit :=
  fun st => (smtp_exchange w (connections st) password m,
             {| db := db st; connections := S (connections st); log := log st |}).

(** ** Email helper *)

(** The alarm clock sign and the em dash of the source's literals. *)
Definition subject_line : text := [9200%N] ++ py " Smart Reminder".

Definition body_head : text :=
  py "Hello," ++ [10; 10]%N
  ++ py "This is your reminder:" ++ [10; 10]%N
  ++ py "  ".

Definition body_tail : text :=
  [10; 10]%N ++ [8212; 10]%N ++ py "Sent automatically by SmartReminder".

(** The f-string [body]: the message between the greeting and the
    signature. *)
Definition body_of (message : pystr) : pystr :=
  str_app body_head (str_app message body_tail).

(** [MIMEText(body, "plain")]: the body is not ASCII (it holds the em dash),
    so it is encoded as UTF-8, which raises [UnicodeEncodeError] when the
    message holds a surrogate. *)
Definition mime_text (body : pystr) : PyResult pystr :=
  if encodes body then Returned body else Raised UnicodeEncodeError.

(** A step that returns or raises and leaves the state alone. *)
Definition lift {A} (r : PyResult A) : Job A := fun st => (r, st).

(** [send_email(to_email, message)]. The message is built before the [try]
    statement, so what the build raises reaches the caller. Each [except]
    clause falls through to the final [return False]; here each handler
    returns [false] itself. *)
Definition send_email (w : World) (to_email message : pystr) : Job bool :=
  let email_user := EMAIL_USER w in
  let email_pass := EMAIL_PASS w in
  if negb (truthy_opt email_user) || negb (truthy_opt email_pass) then
    logger ErrNotConfigured ;;; ret false
  else
    payload <- lift (mime_text (body_of message)) ;;
    let msg := {| mail_from := default [] email_user; mail_to := to_email;
                  mail_subject := subject_line; mail_body := payload |} in
    try_except
      (smtp_session w (default [] email_pass) msg ;;;
       logger (EmailSent to_email) ;;;
       ret true)
      [ (SMTPAuthenticationError, fun _ => logger ErrAuthentication ;;; ret false);
        (SMTPException, fun exc => logger (ErrSmtp exc) ;;; ret false);
        (Exception, fun exc => logger (ErrUnexpected exc) ;;; ret false) ].

(** ** Scheduler job *)

(** [Reminder.query.filter(...).all()] *)
Definition query_due (now_ist : datetime) : Job (list (Z * Reminder)) :=
  fun st => (Returned (due_reminders now_ist (db st)), st).

(** [reminder.sent = True; db.session.commit()] for the row with key [id]:
    an unconditional write that returns nothing. *)
Definition mark_sent (id : Z) : Job unit :=
  fun st => (Returned tt,
             {| db := alter set_sent id (db st);
                connections := connections st; log := log st |}).

(** The body of the [for reminder in pending] loop. *)
Definition process_reminder (w : World) (p : Z * Reminder) : Job unit :=
  logger (Processing p.1 (email p.2)) ;;;
  success <- send_email w (email p.2) (message p.2) ;;
  if success then
    mark_sent p.1 ;;;
    logger (MarkedSent p.1)
  else
    logger (WillRetry p.1).

(** [check_and_send_reminders()], with the clock reading [now_ist] it takes
    from [datetime.now(IST)] as an argument. The source also reads
    [datetime.utcnow()] into a variable it never uses. *)
Definition check_and_send_reminders (w : World) (now_ist : datetime) : Job unit :=
  pending <- query_due now_ist ;;
  match pending with
  | [] => logger (NoPending now_ist)
  | _ => for_each pending (process_reminder w)
  end.

(** [scheduler_error_listener(event)] *)
Definition scheduler_error_listener (exc : ExcClass) : Job unit :=
  logger (JobCrashed exc).

(** One firing of the interval trigger: the scheduler runs the job and hands
    an exception that escapes it to the listener. *)
Definition run_job (w : World) (now_ist : datetime) (st : State) : State :=
  match check_and_send_reminders w now_ist st with
  | (Returned _, st') => st'
  | (Raised e, st') => (scheduler_error_listener e st').2
  end.

(** ** Intake: the form handler *)

Inductive FormError :=
  | EmailRequired      (* Email address is required. *)
  | MessageRequired    (* Reminder message is required. *)
  | DateRequired       (* Date & time is required. *)
  | NotInFuture        (* Scheduled time must be in the future. *)
  | InvalidFormat.     (* Invalid date/time format. *)

Inductive Flash :=
  | Danger (e : FormError)
  | Success (to_email : text) (at_ : datetime).

Inductive Response :=
  | RenderIndex
  | RedirectIndex (flashes : list Flash).

Inductive Request :=
  | GET
  | POST (form : list (string * text)).

(** [request.form.get(key, dflt)] *)
Definition form_get (form : list (string * text)) (key : string) (dflt : text) : text :=
  match List.find (fun kv => String.eqb kv.1 key) form with
  | Some kv => kv.2
  | None => dflt
  end.

(** The key the database gives a new row: one more than the largest in use. *)
Definition next_id (t : Table) : Z :=
  1 + map_fold (fun k _ acc => Z.max k acc) 0 t.

(** [Reminder(email=..., message=..., remind_at=...)]: column [sent] takes its
    default, [False]. *)
Definition new_reminder (to_email msg : text) (remind_dt : datetime) : Reminder :=
  {| email := to_email; message := msg; remind_at := remind_dt; sent := false |}.

(** [db.session.add(reminder); db.session.commit()]; returns the new key. *)
Definition add_commit (r : Reminder) : Job Z :=
  fun st =>
    let id := next_id (db st) in
    (Returned id,
     {| db := <[id := r]> (db st); connections := connections st; log := log st |}).

Section Intake.

(** [datetime.strptime(s, "%Y-%m-%dT%H:%M")]: [None] stands for the
    [ValueError] it raises on a string that does not match. *)
Variable strptime : text -> option datetime.

(** The validation block of [index]: the list [errors] and [remind_dt]. *)
Definition validate (to_email msg remind_str : text) (now_ist : datetime)
    : list FormError * option datetime :=
  let errors := [] in
  let errors := if negb (truthy to_email) then errors ++ [EmailRequired] else errors in
  let errors := if negb (truthy msg) then errors ++ [MessageRequired] else errors in
  let errors := if negb (truthy remind_str) then errors ++ [DateRequired] else errors in
  if truthy remind_str then
    match strptime remind_str with
    | Some remind_dt =>
        if Datetime.leb remind_dt now_ist
        then (errors ++ [NotInFuture], Some remind_dt)
        else (errors, Some remind_dt)
    | None => (errors ++ [InvalidFormat], None)
    end
  else (errors, None).

(** [index()] *)
Definition index (req : Request) (now_ist : datetime) : Job Response :=
  match req with
  | GET => ret RenderIndex
  | POST form =>
      let to_email := strip (form_get form "email" []) in
      let msg := strip (form_get form "message" []) in
      let remind_str := strip (form_get form "remind_at" []) in
      match validate to_email msg remind_str now_ist with
      | ((_ :: _) as errors, _) => ret (RedirectIndex (map Danger errors))
      | ([], Some remind_dt) =>
          id <- add_commit (new_reminder to_email msg remind_dt) ;;
          logger (Scheduled id to_email remind_dt) ;;;
          ret (RedirectIndex [Success to_email remind_dt])
      | ([], None) =>
          (* remind_at is NOT NULL, so the commit would raise; an absent or
             unparsable date always leaves an error, so this is never reached *)
          fun st => (Raised Exception, st)
      end
  end.

(** ** The running system: requests and timer firings, one at a time *)

Inductive Op :=
  | Tick (now_ist : datetime)
  | Req (req : Request) (now_ist : datetime).

Definition step (w : World) (op : Op) (st : State) : State :=
  match op with
  | Tick now_ist => run_job w now_ist st
  | Req req now_ist => (index req now_ist st).2
  end.

(** The states a sequence of operations goes through, the initial one first. *)
Fixpoint run (w : World) (ops : list Op) (st : State) : list State :=
  match ops with
  | [] => [st]
  | op :: ops' => st :: run w ops' (step w op st)
  end.

Definition final (w : World) (ops : list Op) (st : State) : State :=
  foldl (fun s op => step w op s) st ops.

End Intake.

(** ** Derived notions used in the statements *)

(** Both credentials are set and non-empty. *)
Definition configured (w : World) : bool :=
  truthy_opt (EMAIL_USER w) && truthy_opt (EMAIL_PASS w).

(** The message [send_email] builds for a recipient and a reminder text. *)
Definition mail_for (w : World) (to_email msg : pystr) : Mail :=
  {| mail_from := default [] (EMAIL_USER w); mail_to := to_email;
     mail_subject := subject_line; mail_body := body_of msg |}.

(** What the [n]-th SMTP session does with that message. *)
Definition exchange (w : World) (n : nat) (to_email msg : pystr) : PyResult unit :=
  smtp_exchange w n (default [] (EMAIL_PASS w)) (mail_for w to_email msg).

(** The line the [except] clause that catches [e] logs. *)
Definition failure_line (e : ExcClass) : LogEntry :=
  if issubclass e SMTPAuthenticationError then ErrAuthentication
  else if issubclass e SMTPException then ErrSmtp e
  else ErrUnexpected e.

(** The value of [send_email], for a message that encodes, when [n]
    sessions have been opened before. *)
Definition delivered (w : World) (n : nat) (to_email msg : pystr) : bool :=
  configured w &&
  match exchange w n to_email msg with Returned _ => true | Raised _ => false end.

(** The one line [send_email] then logs. *)
Definition send_line (w : World) (n : nat) (to_email msg : pystr) : LogEntry :=
  if configured w then
    match exchange w n to_email msg with
    | Returned _ => EmailSent to_email
    | Raised e => failure_line e
    end
  else ErrNotConfigured.

Definition next_conn (w : World) (n : nat) : nat :=
  if configured w then S n else n.

(** The state one iteration of the loop leaves. *)
Definition after_reminder (w : World) (p : Z * Reminder) (st : State) : State :=
  let b := delivered w (connections st) (email p.2) (message p.2) in
  {| db := if b then alter set_sent p.1 (db st) else db st;
     connections := next_conn w (connections st);
     log := log st ++ [Processing p.1 (email p.2);
                       send_line w (connections st) (email p.2) (message p.2);
                       if b then MarkedSent p.1 else WillRetry p.1] |}.

(** The keys of the reminders a stretch of log says were taken up. *)
Definition processed (lg : list LogEntry) : list Z :=
  omap (fun e => match e with Processing id _ => Some id | _ => None end) lg.

(** The lines logged between an earlier state and a later one. *)
Definition emitted (st st' : State) : list LogEntry :=
  drop (length (log st)) (log st').

(** The state in which the loop, started in [st] on [before ++ p :: _],
    reaches [p]. *)
Definition loop_state (w : World) (before : list (Z * Reminder)) (st : State) : State :=
  (for_each before (process_reminder w) st).2.

(** The state in which [send_email] is called for [p]: the loop has reached
    [p] and logged that it takes it up. *)
Definition send_state (w : World) (before : list (Z * Reminder)) (p : Z * Reminder)
    (st : State) : State :=
  (logger (Processing p.1 (email p.2)) (loop_state w before st)).2.

(** The [sent] flag of the row with key [id], if there is such a row. *)
Definition sent_of (id : Z) (st : State) : option bool :=
  sent <$> db st !! id.

(** How often two neighbours of a list stand in relation [P]. *)
Fixpoint count_adjacent {A} (P : A -> A -> bool) (l : list A) : nat :=
  match l with
  | a :: (b :: _) as l' => (if P a b then 1 else 0)%nat + count_adjacent P l'
  | _ => 0%nat
  end.

(** false -> true *)
Definition rises (a b : option bool) : bool :=
  match a, b with Some false, Some true => true | _, _ => false end.

(** true -> anything else, the row vanishing included *)
Definition resets (a b : option bool) : bool :=
  match a, b with
  | Some true, Some true => false
  | Some true, _ => true
  | _, _ => false
  end.

(** a row that appears with the flag already set *)
Definition born_sent (a b : option bool) : bool :=
  match a, b with None, Some true => true | _, _ => false end.

(** ** The store contract in the specification's words *)


(** ** Concrete data for the examples *)

Definition digit (c : N) : option Z :=
  if ((48 <=? c) && (c <=? 57))%N then Some (Z.of_N c - 48) else None.

Definition number (cs : list N) : option Z :=
  foldl (fun acc c =>
           match acc, digit c with
           | Some a, Some d => Some (10 * a + d)
           | _, _ => None
           end) (Some 0) cs.

Definition days_in_month (y m : Z) : Z :=
  if (m =? 2) then
    if ((y mod 4 =? 0) && negb (y mod 100 =? 0) || (y mod 400 =? 0)) then 29 else 28
  else if (m =? 4) || (m =? 6) || (m =? 9) || (m =? 11) then 30
  else 31.

(** An instance of [strptime] for the format of the handler, on the
    zero-padded sixteen-character form a datetime-local field submits. *)
Definition strptime_iso (s : text) : option datetime :=
  match s with
  | [y1; y2; y3; y4; s1; m1; m2; s2; d1; d2; s3; h1; h2; s4; n1; n2] =>
      if ((s1 =? 45) && (s2 =? 45) && (s3 =? 84) && (s4 =? 58))%N then
        match number [y1; y2; y3; y4], number [m1; m2], number [d1; d2],
              number [h1; h2], number [n1; n2] with
        | Some y, Some m, Some d, Some h, Some n =>
            if (1 <=? y) && (1 <=? m) && (m <=? 12) && (1 <=? d)
               && (d <=? days_in_month y m) && (h <=? 23) && (n <=? 59)
            then Some (Datetime.mkdt y m d h n 0 0)
            else None
        | _, _, _, _, _ => None
        end
      else None
  | _ => None
  end.

Definition at_ymdhm (y m d h n : Z) : datetime := Datetime.mkdt y m d h n 0 0.

(** Noon, noon plus one minute, and the two due times of the examples. *)
Definition noon : datetime := at_ymdhm 2026 11 3 12 0.
Definition noon_01 : datetime := at_ymdhm 2026 11 3 12 1.
Definition morning : datetime := at_ymdhm 2026 11 3 9 0.
Definition evening : datetime := at_ymdhm 2026 11 3 18 0.

Definition alice : Reminder :=
  {| email := py "alice@example.org"; message := py "stand-up";
     remind_at := morning; sent := false |}.
Definition bob : Reminder :=
  {| email := py "bob@example.org"; message := py "tea";
     remind_at := morning; sent := false |}.
Definition carol : Reminder :=
  {| email := py "carol@example.org"; message := py "dinner";
     remind_at := evening; sent := false |}.

Definition state_of (t : Table) : State :=
  {| db := t; connections := 0; log := [] |}.

Definition one_row : State := state_of {[ 1 := alice ]}.
Definition two_rows : State := state_of (<[ 1 := alice ]> {[ 2 := bob ]}).
Definition three_rows : State :=
  state_of (<[ 1 := alice ]> (<[ 2 := bob ]> {[ 3 := carol ]})).

Definition credentials (w : nat -> text -> Mail -> PyResult unit) : World :=
  {| EMAIL_USER := Some (py "robot@example.org");
     EMAIL_PASS := Some (py "app-password");
     smtp_exchange := w |}.

(** Every session completes. *)
Definition world_ok : World := credentials (fun _ _ _ => Returned tt).
(** A server that refuses the login. *)
Definition world_auth : World :=
  credentials (fun _ _ _ => Raised SMTPAuthenticationError).
(** A server that cannot be reached. *)
Definition world_down : World :=
  credentials (fun _ _ _ => Raised ConnectionRefusedError).
(** No credentials in the environment. *)
Definition world_unconfigured : World :=
  {| EMAIL_USER := None; EMAIL_PASS := None;
     smtp_exchange := fun _ _ _ => Returned tt |}.
(** A server that drops the first session and accepts the later ones. *)
Definition world_flaky : World :=
  credentials (fun n _ _ =>
                 match n with O => Raised SMTPServerDisconnected | _ => Returned tt end).

Definition form_of (to_email msg remind_str : string) : list (string * text) :=
  [("email"%string, py to_email); ("message"%string, py msg);
   ("remind_at"%string, py remind_str)].

(** ** Further notions for the properties of the whole job and of the handler *)

(** The lines a run of the loop over [l] logs when [n] sessions have been
    opened before it starts: three per reminder. *)
Fixpoint loop_lines (w : World) (l : list (Z * Reminder)) (n : nat) : list LogEntry :=
  match l with
  | [] => []
  | p :: l' =>
      [Processing p.1 (email p.2);
       send_line w n (email p.2) (message p.2);
       if delivered w n (email p.2) (message p.2)
       then MarkedSent p.1 else WillRetry p.1]
      ++ loop_lines w l' (next_conn w n)
  end.

(** The three complaints about the date field. *)
Definition is_date_error (e : FormError) : bool :=
  match e with
  | DateRequired | NotInFuture | InvalidFormat => true
  | _ => false
  end.

(** The order in which [index] appends its complaints. *)
Definition error_order : list FormError :=
  [EmailRequired; MessageRequired; DateRequired; NotInFuture; InvalidFormat].

(** A string of white space only, the empty one included. *)
Definition blank (s : text) : Prop := Forall (fun c => isspace c = true) s.

(** Eight in the morning, before any reminder of the examples is due. *)
Definition dawn : datetime := at_ymdhm 2026 11 3 8 0.

(** A string that is not empty and neither begins nor ends with white
    space. *)
Definition trimmed (s : text) : Prop :=
  s <> []
  /\ (forall c, head s = Some c -> isspace c = false)
  /\ (forall c, last s = Some c -> isspace c = false).

(** * Facts *)

(** ** The order on datetimes *)

Module DatetimeFacts.
Import Datetime.

Lemma lex_Lt x y c :
  lex (x ?= y) c = Lt <-> x < y \/ (x = y /\ c = Lt).
Proof.
  unfold lex. destruct (Z.compare_spec x y); intuition (try lia; try congruence).
Qed.

Lemma lex_Gt x y c :
  lex (x ?= y) c = Gt <-> y < x \/ (x = y /\ c = Gt).
Proof.
  unfold lex. destruct (Z.compare_spec x y); intuition (try lia; try congruence).
Qed.

Lemma lex_opp c1 c2 : lex (CompOpp c1) (CompOpp c2) = CompOpp (lex c1 c2).
Proof. by destruct c1. Qed.

Lemma compare_antisym a b : compare b a = CompOpp (compare a b).
Proof.
  unfold compare. rewrite <- !lex_opp, <- !Z.compare_antisym. done.
Qed.

Lemma leb_false_ltb a b : leb a b = false <-> ltb b a = true.
Proof.
  unfold leb, ltb. rewrite (compare_antisym a b).
  destruct (compare a b); simpl; split; congruence.
Qed.

Lemma ltb_false_leb a b : ltb a b = false <-> leb b a = true.
Proof.
  unfold leb, ltb. rewrite (compare_antisym a b).
  destruct (compare a b); simpl; split; congruence.
Qed.

Lemma lt_not_le a b : lt a b -> ~ le b a.
Proof.
  unfold lt, le. intros H1 H2. apply leb_false_ltb in H1. congruence.
Qed.

Lemma le_refl a : le a a.
Proof.
  unfold le, leb, compare. rewrite !Z.compare_refl. done.
Qed.

Lemma compare_Gt a b :
  compare a b = Gt <->
  year b < year a \/ (year a = year b /\
  (month b < month a \/ (month a = month b /\
  (day b < day a \/ (day a = day b /\
  (hour b < hour a \/ (hour a = hour b /\
  (minute b < minute a \/ (minute a = minute b /\
  (second b < second a \/ (second a = second b /\
   microsecond b < microsecond a))))))))))).
Proof.
  unfold compare. rewrite !lex_Gt, Z.compare_gt_iff. tauto.
Qed.

Lemma le_trans a b c : le a b -> le b c -> le a c.
Proof.
  unfold le, leb. intros Hab Hbc.
  destruct (compare a c) eqn:Hac; try done.
  assert (compare a b <> Gt) as Hab' by (by destruct (compare a b)).
  assert (compare b c <> Gt) as Hbc' by (by destruct (compare b c)).
  rewrite compare_Gt in Hac, Hab', Hbc'. exfalso. lia.
Qed.

End DatetimeFacts.

(** ** The query *)

Lemma is_due_true now_ist r :
  is_due now_ist r = true <-> sent r = false /\ Datetime.le (remind_at r) now_ist.
Proof.
  unfold is_due, Datetime.le.
  rewrite andb_true_iff, negb_true_iff. tauto.
Qed.

Lemma elem_of_due_reminders now_ist (t : Table) id r :
  (id, r) ∈ due_reminders now_ist t <->
  t !! id = Some r /\ sent r = false /\ Datetime.le (remind_at r) now_ist.
Proof.
  unfold due_reminders.
  rewrite list_elem_of_filter, elem_of_map_to_list. simpl.
  rewrite is_due_true. tauto.
Qed.

Lemma NoDup_due_keys now_ist (t : Table) : NoDup (due_reminders now_ist t).*1.
Proof.
  apply (sublist_NoDup _ (map_to_list t).*1); [apply NoDup_fst_map_to_list |].
  unfold due_reminders. apply fmap_sublist, sublist_filter.
Qed.

Lemma set_sent_sent r : sent (set_sent r) = true.
Proof. done. Qed.

Lemma set_sent_id r : sent r = true -> set_sent r = r.
Proof. destruct r as [e m d s]. simpl. by intros ->. Qed.

Lemma set_sent_idemp r : set_sent (set_sent r) = set_sent r.
Proof. done. Qed.

Lemma due_key_lookup now_ist (t : Table) id :
  id ∈ (due_reminders now_ist t).*1 <->
  exists r, t !! id = Some r /\ sent r = false /\ Datetime.le (remind_at r) now_ist.
Proof.
  rewrite list_elem_of_fmap. split.
  - intros [[k r] [-> Hin]]. exists r. by apply elem_of_due_reminders.
  - intros [r Hr]. exists (id, r). split; [done |]. by apply elem_of_due_reminders.
Qed.

(** ** The e-mail helper *)

Lemma issubclass_Exception e : issubclass e Exception = true.
Proof. by destruct e. Qed.

Lemma scalar_code_not_surrogate n : is_surrogate (scalar_code n) = false.
Proof.
  unfold is_surrogate, scalar_code.
  destruct (N.ltb_spec n 55296).
  - apply andb_false_iff. left. apply N.leb_gt. done.
  - apply andb_false_iff. right. apply N.leb_gt. lia.
Qed.

Lemma encodes_of_text (s : text) : encodes s = true.
Proof.
  simpl. induction s as [| c s IH]; [done |].
  simpl. by rewrite scalar_code_not_surrogate, IH.
Qed.

Lemma encodes_app s1 s2 : encodes (str_app s1 s2) = encodes s1 && encodes s2.
Proof. destruct s1, s2. simpl. apply forallb_app. Qed.

Lemma encodes_body_of msg : encodes (body_of msg) = encodes msg.
Proof.
  unfold body_of. rewrite !encodes_app, !encodes_of_text.
  simpl. by rewrite andb_true_r.
Qed.

(** The three ways [send_email] ends: without credentials; with them and a
    message that does not encode; with them and a message that does. *)
Lemma send_email_cases w (to_email msg : pystr) st :
  send_email w to_email msg st =
  if configured w then
    if encodes msg then
      (Returned (delivered w (connections st) to_email msg),
       {| db := db st;
          connections := S (connections st);
          log := log st ++ [send_line w (connections st) to_email msg] |})
    else (Raised UnicodeEncodeError, st)
  else
    (Returned false,
     {| db := db st; connections := connections st;
        log := log st ++ [ErrNotConfigured] |}).
Proof.
  unfold send_email, delivered, send_line, configured, exchange, mail_for.
  destruct (truthy_opt (EMAIL_USER w)); simpl; [| done].
  destruct (truthy_opt (EMAIL_PASS w)); simpl; [| done].
  unfold bind at 1. unfold lift, mime_text. rewrite encodes_body_of.
  destruct (encodes msg); [| done].
  unfold try_except, bind, smtp_session, logger, ret. simpl.
  destruct (smtp_exchange w (connections st) _ _) as [[] | e]; [done |].
  unfold failure_line. by destruct e.
Qed.

Lemma send_email_eq w (to_email msg : text) st :
  send_email w to_email msg st =
  (Returned (delivered w (connections st) to_email msg),
   {| db := db st;
      connections := next_conn w (connections st);
      log := log st ++ [send_line w (connections st) to_email msg] |}).
Proof.
  rewrite send_email_cases, encodes_of_text.
  unfold next_conn, delivered, send_line. by destruct (configured w).
Qed.

Lemma process_reminder_eq w p st :
  process_reminder w p st = (Returned tt, after_reminder w p st).
Proof.
  unfold process_reminder, bind at 1. unfold logger at 1.
  unfold bind at 1. rewrite send_email_eq. simpl.
  unfold after_reminder.
  destruct (delivered w (connections st) (email p.2) (message p.2));
    unfold bind, mark_sent, logger; simpl; by rewrite <- !app_assoc.
Qed.

Lemma for_each_eq w l st :
  for_each l (process_reminder w) st =
  (Returned tt, foldl (fun s p => after_reminder w p s) st l).
Proof.
  revert st. induction l as [| p l IH]; intros st; [done |].
  simpl. unfold bind. rewrite process_reminder_eq. apply IH.
Qed.

Lemma loop_state_eq w l st :
  loop_state w l st = foldl (fun s p => after_reminder w p s) st l.
Proof. unfold loop_state. by rewrite for_each_eq. Qed.

(** A run of the loop touches no row whose key is not in its list. *)
Lemma loop_other_rows w l st id :
  id ∉ l.*1 -> db (loop_state w l st) !! id = db st !! id.
Proof.
  rewrite loop_state_eq. revert st.
  induction l as [| p l IH]; intros st Hid; [done |].
  simpl in *. apply not_elem_of_cons in Hid as [Hne Hid].
  rewrite IH by done. unfold after_reminder. simpl.
  destruct (delivered _ _ _ _); [| done]. by rewrite lookup_alter_ne.
Qed.

Lemma processed_iteration w n id to_email msg (b : bool) :
  processed [Processing id to_email; send_line w n to_email msg;
             if b then MarkedSent id else WillRetry id] = [id].
Proof.
  unfold processed. simpl.
  assert (match send_line w n to_email msg with
          | Processing k _ => Some k | _ => None end = None) as ->.
  { unfold send_line, failure_line. repeat (case_match; try done). }
  by destruct b.
Qed.

(** A run of the loop logs [Processing] for the keys of its list, in order. *)
Lemma loop_log w l st :
  exists lg, log (loop_state w l st) = log st ++ lg /\ processed lg = l.*1.
Proof.
  rewrite loop_state_eq. revert st.
  induction l as [| p l IH]; intros st.
  - exists []. simpl. by rewrite app_nil_r.
  - simpl. destruct (IH (after_reminder w p st)) as [lg [Hlg Hp]].
    eexists. split.
    + rewrite Hlg. unfold after_reminder at 1. simpl.
      rewrite <- app_assoc. reflexivity.
    + unfold processed in *. rewrite omap_app, Hp.
      fold (processed [Processing p.1 (email p.2);
                       send_line w (connections st) (email p.2) (message p.2);
                       if delivered w (connections st) (email p.2) (message p.2)
                       then MarkedSent p.1 else WillRetry p.1]).
      by rewrite processed_iteration.
Qed.

Lemma check_and_send_eq w now_ist st :
  check_and_send_reminders w now_ist st =
  (Returned tt,
   match due_reminders now_ist (db st) with
   | [] => {| db := db st; connections := connections st;
              log := log st ++ [NoPending now_ist] |}
   | _ :: _ => loop_state w (due_reminders now_ist (db st)) st
   end).
Proof.
  unfold check_and_send_reminders, bind, query_due.
  destruct (due_reminders now_ist (db st)) as [| p l] eqn:Hd; [done |].
  rewrite for_each_eq. by rewrite loop_state_eq.
Qed.

Lemma run_job_eq w now_ist st :
  run_job w now_ist st =
  match due_reminders now_ist (db st) with
  | [] => {| db := db st; connections := connections st;
             log := log st ++ [NoPending now_ist] |}
  | _ :: _ => loop_state w (due_reminders now_ist (db st)) st
  end.
Proof. unfold run_job. by rewrite check_and_send_eq. Qed.

Lemma emitted_app st st' lg : log st' = log st ++ lg -> emitted st st' = lg.
Proof. unfold emitted. intros ->. by rewrite drop_app_length. Qed.

(** One firing logs [Processing] exactly for the due reminders, in order. *)
Lemma run_job_log w now_ist st :
  exists lg, log (run_job w now_ist st) = log st ++ lg /\
             processed lg = (due_reminders now_ist (db st)).*1.
Proof.
  rewrite run_job_eq.
  destruct (due_reminders now_ist (db st)) as [| p l] eqn:Hd.
  - exists [NoPending now_ist]. done.
  - apply loop_log.
Qed.

(** The row of a reminder the loop reaches, after the whole firing. *)
Lemma run_job_row w now_ist st before id r after :
  due_reminders now_ist (db st) = before ++ (id, r) :: after ->
  db (run_job w now_ist st) !! id =
  if delivered w (connections (loop_state w before st)) (email r) (message r)
  then Some (set_sent r) else Some r.
Proof.
  intros Hd.
  assert (NoDup (before ++ (id, r) :: after).*1) as Hnd
    by (rewrite <- Hd; apply NoDup_due_keys).
  rewrite fmap_app, fmap_cons in Hnd. simpl in Hnd.
  apply NoDup_app in Hnd as (_ & Hb & Hnd).
  apply NoDup_cons in Hnd as [Ha _].
  assert (id ∉ before.*1) as Hb' by (intros Hin; apply (Hb _ Hin); left).
  assert (db st !! id = Some r) as Hr.
  { apply (elem_of_due_reminders now_ist). rewrite Hd. set_solver. }
  assert (run_job w now_ist st = loop_state w (before ++ (id, r) :: after) st) as ->.
  { rewrite run_job_eq, Hd. by destruct before. }
  rewrite loop_state_eq, foldl_app. simpl. rewrite <- !loop_state_eq.
  rewrite loop_other_rows by done.
  unfold after_reminder. simpl.
  destruct (delivered _ _ _ _); simpl.
  - rewrite lookup_alter_eq, loop_other_rows, Hr; done.
  - rewrite loop_other_rows, Hr; done.
Qed.

Lemma send_email_value w (to_email msg : text) st :
  (send_email w to_email msg st).1 = Returned (delivered w (connections st) to_email msg).
Proof. by rewrite send_email_eq. Qed.

(** ** The lines and the sessions of a run of the loop *)

Lemma loop_log_exact w l st :
  log (loop_state w l st) = log st ++ loop_lines w l (connections st).
Proof.
  rewrite loop_state_eq. revert st.
  induction l as [| p l IH]; intros st; simpl.
  - by rewrite app_nil_r.
  - rewrite IH. unfold after_reminder. simpl. by rewrite <- app_assoc.
Qed.

Lemma loop_connections w l st :
  connections (loop_state w l st)
  = (connections st + if configured w then length l else 0)%nat.
Proof.
  rewrite loop_state_eq. revert st.
  induction l as [| p l IH]; intros st; simpl.
  - destruct (configured w); lia.
  - rewrite IH. unfold after_reminder, next_conn. simpl.
    destruct (configured w); lia.
Qed.

Lemma run_job_emitted w now_ist st :
  emitted st (run_job w now_ist st)
  = match due_reminders now_ist (db st) with
    | [] => [NoPending now_ist]
    | _ :: _ => loop_lines w (due_reminders now_ist (db st)) (connections st)
    end.
Proof.
  rewrite run_job_eq. destruct (due_reminders now_ist (db st)) as [| p l].
  - by apply emitted_app.
  - apply emitted_app, loop_log_exact.
Qed.

Lemma loop_lines_split w before p after st :
  loop_lines w (before ++ p :: after) (connections st)
  = loop_lines w before (connections st)
    ++ [Processing p.1 (email p.2);
        send_line w (connections (loop_state w before st)) (email p.2) (message p.2);
        if delivered w (connections (loop_state w before st)) (email p.2) (message p.2)
        then MarkedSent p.1 else WillRetry p.1]
    ++ loop_lines w after (next_conn w (connections (loop_state w before st))).
Proof.
  revert st. induction before as [| q before IH]; intros st; [done |].
  assert (loop_state w (q :: before) st = loop_state w before (after_reminder w q st)) as ->
    by (by rewrite !loop_state_eq).
  specialize (IH (after_reminder w q st)).
  change (connections (after_reminder w q st)) with (next_conn w (connections st)) in IH.
  change (loop_lines w ((q :: before) ++ p :: after) (connections st))
    with ([Processing q.1 (email q.2);
           send_line w (connections st) (email q.2) (message q.2);
           if delivered w (connections st) (email q.2) (message q.2)
           then MarkedSent q.1 else WillRetry q.1]
          ++ loop_lines w (before ++ p :: after) (next_conn w (connections st))).
  rewrite IH. simpl. done.
Qed.

Lemma send_state_connections w before p st :
  connections (send_state w before p st) = connections (loop_state w before st).
Proof. done. Qed.

(** ** Rows over the operations of the system *)

Lemma loop_rows w l st id :
  db (loop_state w l st) !! id = db st !! id \/
  db (loop_state w l st) !! id = set_sent <$> db st !! id.
Proof.
  rewrite loop_state_eq. revert st.
  induction l as [| p l IH]; intros st; [by left |].
  simpl. destruct (IH (after_reminder w p st)) as [-> | ->];
    unfold after_reminder; simpl;
    destruct (delivered _ _ _ _); simpl; try (by left);
    destruct (decide (p.1 = id)) as [<- | Hne];
    rewrite ?lookup_alter_eq, ?lookup_alter_ne by done;
    try (by left); try (by right).
  right. destruct (db st !! p.1); done.
Qed.

Lemma run_job_rows w now_ist st id :
  db (run_job w now_ist st) !! id = db st !! id \/
  db (run_job w now_ist st) !! id = set_sent <$> db st !! id.
Proof.
  rewrite run_job_eq. destruct (due_reminders now_ist (db st)); [by left |].
  apply loop_rows.
Qed.

Lemma next_id_above (t : Table) k : is_Some (t !! k) -> k < next_id t.
Proof.
  unfold next_id.
  assert (forall k, is_Some (t !! k) ->
          k <= map_fold (fun k _ acc => Z.max k acc) 0 t) as H; [| intros Hk; specialize (H k Hk); lia].
  clear k.
  apply (map_fold_weak_ind
           (fun r (m : Table) => forall k, is_Some (m !! k) -> k <= r)).
  - intros k [x Hx]. by rewrite lookup_empty in Hx.
  - intros i x m r Hi IH k Hk.
    destruct (decide (i = k)) as [-> | Hne]; [lia |].
    rewrite lookup_insert_ne in Hk by done. specialize (IH k Hk). lia.
Qed.

Lemma next_id_fresh (t : Table) : t !! next_id t = None.
Proof.
  destruct (t !! next_id t) eqn:H; [| done].
  assert (next_id t < next_id t) by (apply next_id_above; eauto). lia.
Qed.

Section SystemFacts.

Variable strptime : text -> option datetime.

(** What a request leaves in the table: nothing new, or one new unsent row
    under a key that was free. *)
Lemma index_rows req now_ist st :
  db (index strptime req now_ist st).2 = db st \/
  exists r, sent r = false /\
            db (index strptime req now_ist st).2 = <[next_id (db st) := r]> (db st).
Proof.
  destruct req as [| form]; [by left |].
  unfold index.
  destruct (validate _ _ _ _ _) as [[| e errs] [dt |]]; try (by left).
  right. eexists. split; [| reflexivity]. done.
Qed.

(** One operation and one row: the row stays, or is marked sent, or is a
    new unsent row. *)
Lemma step_row w op st id :
  match db st !! id with
  | Some r => db (step strptime w op st) !! id = Some r \/
              db (step strptime w op st) !! id = Some (set_sent r)
  | None => db (step strptime w op st) !! id = None \/
            exists r, db (step strptime w op st) !! id = Some r /\ sent r = false
  end.
Proof.
  destruct op as [now_ist | req now_ist]; simpl.
  - destruct (run_job_rows w now_ist st id) as [-> | ->];
      destruct (db st !! id); simpl; auto.
  - destruct (index_rows req now_ist st) as [-> | [r [Hr ->]]].
    + destruct (db st !! id); auto.
    + destruct (decide (next_id (db st) = id)) as [<- | Hne].
      * rewrite next_id_fresh, lookup_insert_eq. right. eauto.
      * rewrite lookup_insert_ne by done. destruct (db st !! id); auto.
Qed.

Lemma step_sent_of w op st id :
  match sent_of id st with
  | Some true => sent_of id (step strptime w op st) = Some true
  | Some false => is_Some (sent_of id (step strptime w op st))
  | None => sent_of id (step strptime w op st) <> Some true
  end.
Proof.
  unfold sent_of. pose proof (step_row w op st id) as H.
  destruct (db st !! id) as [r |]; simpl.
  - destruct H as [-> | ->]; simpl.
    + destruct (sent r); eauto.
    + destruct (sent r); eauto.
  - destruct H as [-> | [r [-> Hr]]]; simpl; [done |]. by rewrite Hr.
Qed.

Lemma final_sent w ops st id :
  sent_of id st = Some true -> sent_of id (final strptime w ops st) = Some true.
Proof.
  revert st. induction ops as [| op ops IH]; intros st H; [done |].
  simpl. apply IH. pose proof (step_sent_of w op st id) as Hs. by rewrite H in Hs.
Qed.

Lemma count_adjacent_cons {A} (P : A -> A -> bool) a b l :
  count_adjacent P (a :: b :: l) =
  ((if P a b then 1 else 0) + count_adjacent P (b :: l))%nat.
Proof. done. Qed.

Lemma history_all_sent w ops st id :
  sent_of id st = Some true ->
  Forall (fun x => x = Some true) (sent_of id <$> run strptime w ops st).
Proof.
  revert st. induction ops as [| op ops IH]; intros st H.
  - by repeat constructor.
  - simpl. constructor; [done |]. apply IH.
    pose proof (step_sent_of w op st id) as Hs. by rewrite H in Hs.
Qed.

Lemma all_sent_counts (l : list (option bool)) :
  Forall (fun x => x = Some true) l ->
  count_adjacent rises l = 0%nat /\
  count_adjacent resets l = 0%nat /\
  count_adjacent born_sent l = 0%nat.
Proof.
  induction 1 as [| a l Ha Hl IH]; [done |].
  destruct Hl as [| b l Hb Hl]; [done |].
  subst a b. cbn [count_adjacent rises resets born_sent] in *. lia.
Qed.

Lemma history_sent w ops st id :
  sent_of id st = Some true ->
  count_adjacent rises (sent_of id <$> run strptime w ops st) = 0%nat /\
  count_adjacent resets (sent_of id <$> run strptime w ops st) = 0%nat /\
  count_adjacent born_sent (sent_of id <$> run strptime w ops st) = 0%nat.
Proof. intros H. by apply all_sent_counts, history_all_sent. Qed.

Lemma history_counts w ops st id :
  (count_adjacent rises (sent_of id <$> run strptime w ops st) <= 1)%nat /\
  count_adjacent resets (sent_of id <$> run strptime w ops st) = 0%nat /\
  count_adjacent born_sent (sent_of id <$> run strptime w ops st) = 0%nat.
Proof.
  revert st. induction ops as [| op ops IH]; intros st; [simpl; lia |].
  pose proof (step_sent_of w op st id) as Hs.
  destruct (IH (step strptime w op st)) as (H1 & H2 & H3).
  assert (sent_of id <$> run strptime w (op :: ops) st =
          sent_of id st :: sent_of id (step strptime w op st)
            :: tail (sent_of id <$> run strptime w ops (step strptime w op st))) as Heq.
  { simpl. by destruct ops. }
  assert (sent_of id <$> run strptime w ops (step strptime w op st) =
          sent_of id (step strptime w op st)
            :: tail (sent_of id <$> run strptime w ops (step strptime w op st))) as Heq'.
  { by destruct ops. }
  rewrite Heq. rewrite Heq' in H1, H2, H3.
  rewrite !count_adjacent_cons.
  destruct (sent_of id (step strptime w op st)) as [[] |] eqn:Hb.
  - destruct (history_sent w ops _ id Hb) as (G1 & G2 & G3).
    rewrite Heq' in G1, G2, G3. rewrite G1, G2, G3.
    destruct (sent_of id st) as [[] |]; simpl in *;
      try (repeat split; lia); congruence.
  - destruct (sent_of id st) as [[] |]; simpl in *;
      try (repeat split; lia); congruence.
  - destruct (sent_of id st) as [[] |]; simpl in *;
      try (repeat split; lia); try congruence; by destruct Hs.
Qed.

End SystemFacts.

(** * The claims *)

(** ** Due-reminder selection *)

(** C1. The scheduler's due query returns exactly the rows with [sent = false]
    and [remind_at <= now]: a row is in the result if and only if it is in
    the table, unsent and due; a row due later than [now] is left out; a row
    is left out once it has been marked sent; and no row is returned twice. *)
Theorem due_selection_exact (now_ist : datetime) (st : State) :
  query_due now_ist st = (Returned (due_reminders now_ist (db st)), st)
  /\ (forall id r,
        (id, r) ∈ due_reminders now_ist (db st) <->
        db st !! id = Some r /\ sent r = false /\ Datetime.le (remind_at r) now_ist)
  /\ (forall id r,
        db st !! id = Some r -> Datetime.lt now_ist (remind_at r) ->
        id ∉ (due_reminders now_ist (db st)).*1)
  /\ (forall id, id ∉ (due_reminders now_ist (db (mark_sent id st).2)).*1)
  /\ NoDup (due_reminders now_ist (db st)).*1.
Proof.
  split; [done |]. split; [| split; [| split]].
  - intros id r. apply elem_of_due_reminders.
  - intros id r Hr Hlt Hin. apply due_key_lookup in Hin as (r' & Hr' & _ & Hle).
    assert (r' = r) as -> by congruence.
    by apply (DatetimeFacts.lt_not_le _ _ Hlt).
  - intros id Hin. apply due_key_lookup in Hin as (r & Hr & Hs & _).
    simpl in Hr. rewrite lookup_alter_eq in Hr.
    destruct (db st !! id) as [r0 |]; simpl in Hr; [| done].
    assert (r = set_sent r0) as -> by congruence. done.
  - apply NoDup_due_keys.
Qed.

Lemma due_selection_exact_witness :
  (1, alice) ∈ due_reminders noon (db three_rows)
  /\ (3 ∉ (due_reminders noon (db three_rows)).*1)
  /\ (1 ∉ (due_reminders noon (db (mark_sent 1 three_rows).2)).*1).
Proof.
  destruct (due_selection_exact noon three_rows) as (_ & Hiff & Hlater & Hsent & _).
  split; [| split].
  - apply Hiff. repeat split; vm_compute; reflexivity.
  - apply (Hlater 3 carol); vm_compute; reflexivity.
  - apply Hsent.
Defined.

(** ** The e-mail helper *)

(** C10, as amended. [send_email] returns a boolean and lets nothing reach
    its caller for every recipient and for every message that encodes as
    UTF-8, and for any message at all when a credential is missing: whatever
    the SMTP session raises is caught by one of the three [except] clauses;
    the value is [True] exactly when the credentials are set and the session
    completed; and the table is not touched. For a message that holds a
    lone surrogate, with the credentials set, the build of the message,
    which stands before the [try], raises [UnicodeEncodeError] to the caller:
    no session is opened, nothing is logged and the state is as it was. *)
Theorem send_email_total_if_encodable (w : World) (to_email msg : pystr)
    (st : State) :
  (configured w = false \/ encodes msg = true ->
   exists b : bool,
     (send_email w to_email msg st).1 = Returned b
     /\ (b = true <->
         configured w = true /\
         exchange w (connections st) to_email msg = Returned tt)
     /\ db (send_email w to_email msg st).2 = db st)
  /\ (configured w = true -> encodes msg = false ->
      send_email w to_email msg st = (Raised UnicodeEncodeError, st)).
Proof.
  rewrite send_email_cases. split.
  - intros Hok. destruct (configured w) eqn:Hc.
    + destruct Hok as [Hok | Hok]; [done |]. rewrite Hok.
      exists (delivered w (connections st) to_email msg).
      split; [done |]. split; [| done].
      unfold delivered. rewrite Hc. simpl.
      destruct (exchange w (connections st) to_email msg) as [[] | e];
        intuition congruence.
    + exists false. split; [done |]. split; [| done]. intuition congruence.
  - intros Hc He. by rewrite Hc, He.
Qed.

(** The server is unreachable: alice's reminder gives [False]. A message
    with a lone surrogate and no credentials gives [False] as well. *)
Lemma send_email_total_if_encodable_witness :
  (send_email world_down (email alice) (message alice) one_row).1 = Returned false
  /\ (send_email world_unconfigured (email alice) (Str [55296%N]) one_row).1
     = Returned false.
Proof.
  destruct (send_email_total_if_encodable world_down (email alice) (message alice)
              one_row) as [Hd _].
  destruct (send_email_total_if_encodable world_unconfigured (email alice)
              (Str [55296%N]) one_row) as [Hu _].
  destruct Hd as (b & Hb & Hiff & _); [right; vm_compute; reflexivity |].
  destruct Hu as (b' & Hb' & Hiff' & _); [left; reflexivity |].
  split.
  - rewrite Hb. destruct b; [| done].
    destruct Hiff as [Hiff _]. destruct (Hiff eq_refl) as [_ He]. discriminate He.
  - rewrite Hb'. destruct b'; [| done].
    destruct Hiff' as [Hiff' _]. destruct (Hiff' eq_refl) as [Hc _]. discriminate Hc.
Defined.

(** C10 as stated fails: with the credentials set and a server that accepts
    everything, a message that is one lone surrogate makes [send_email]
    raise to its caller. *)
Lemma send_email_surrogate_propagates :
  send_email world_ok (email alice) (Str [55296%N]) one_row
  = (Raised UnicodeEncodeError, one_row).
Proof. vm_compute. reflexivity. Qed.

(** ** One firing of the job *)



(** C3. Retry on failure. If the send for a due reminder R returns [False]
    in a firing, then after that firing R's row is unchanged, hence present
    and unsent, and at every later firing (clock not earlier, any behaviour
    of the outside world) R is due again and is attempted again: the loop
    reaches R, logs that it takes it up, calls [send_email] with R's
    recipient and message, which opens an SMTP session when the credentials
    are set and logs its line, and R ends that firing marked sent exactly
    when this call returns [True]. *)
Theorem retry_on_failure (w : World) (now_ist : datetime) (st : State)
    (before after : list (Z * Reminder)) (id : Z) (r : Reminder) :
  due_reminders now_ist (db st) = before ++ (id, r) :: after ->
  (send_email w (email r) (message r) (send_state w before (id, r) st)).1
    = Returned false ->
  db (run_job w now_ist st) !! id = Some r
  /\ sent r = false
  /\ (forall (w' : World) (now' : datetime),
        Datetime.le now_ist now' ->
        (id, r) ∈ due_reminders now' (db (run_job w now_ist st))
        /\ id ∈ processed (emitted (run_job w now_ist st)
                             (run_job w' now' (run_job w now_ist st)))
        /\ exists (before' after' : list (Z * Reminder)) (b : bool)
                  (lg1 lg2 : list LogEntry),
             due_reminders now' (db (run_job w now_ist st))
             = before' ++ (id, r) :: after'
             /\ (send_email w' (email r) (message r)
                   (send_state w' before' (id, r) (run_job w now_ist st))).1
                = Returned b
             /\ connections
                  (send_email w' (email r) (message r)
                     (send_state w' before' (id, r) (run_job w now_ist st))).2
                = (if configured w'
                   then S (connections
                             (send_state w' before' (id, r) (run_job w now_ist st)))
                   else connections
                          (send_state w' before' (id, r) (run_job w now_ist st)))
             /\ emitted (run_job w now_ist st)
                  (run_job w' now' (run_job w now_ist st))
                = lg1
                  ++ [Processing id (email r)]
                  ++ emitted
                       (send_state w' before' (id, r) (run_job w now_ist st))
                       (send_email w' (email r) (message r)
                          (send_state w' before' (id, r) (run_job w now_ist st))).2
                  ++ [if b then MarkedSent id else WillRetry id]
                  ++ lg2
             /\ db (run_job w' now' (run_job w now_ist st)) !! id
                = Some (if b then set_sent r else r)).
Proof.
  intros Hd. rewrite send_email_value, send_state_connections. intros Hb.
  assert ((id, r) ∈ due_reminders now_ist (db st)) as Hin
    by (rewrite Hd; set_solver).
  apply elem_of_due_reminders in Hin as (Hr & Hs & Hle).
  assert (db (run_job w now_ist st) !! id = Some r) as Hrow.
  { rewrite (run_job_row w now_ist st before id r after Hd).
    by replace (delivered w _ (email r) (message r)) with false by congruence. }
  split; [done |]. split; [done |].
  intros w' now' Hnow.
  assert ((id, r) ∈ due_reminders now' (db (run_job w now_ist st))) as Hdue.
  { apply elem_of_due_reminders. repeat split; try done.
    by apply (DatetimeFacts.le_trans _ now_ist). }
  split; [done |]. split.
  { destruct (run_job_log w' now' (run_job w now_ist st)) as (lg & Hlg & Hp).
    rewrite (emitted_app _ _ lg Hlg), Hp.
    by apply (list_elem_of_fmap_2 fst _ (id, r)). }
  destruct (list_elem_of_split _ _ Hdue) as (before' & after' & Hd').
  set (st1 := run_job w now_ist st) in *.
  exists before', after',
    (delivered w' (connections (loop_state w' before' st1)) (email r) (message r)),
    (loop_lines w' before' (connections st1)),
    (loop_lines w' after'
       (next_conn w' (connections (loop_state w' before' st1)))).
  split; [done |].
  rewrite send_email_eq, send_state_connections. simpl.
  split; [done |]. split; [done |]. split.
  - rewrite run_job_emitted, Hd'.
    assert (forall l, l = before' ++ (id, r) :: after' ->
            match l with
            | [] => [NoPending now']
            | _ :: _ => loop_lines w' (before' ++ (id, r) :: after') (connections st1)
            end
            = loop_lines w' (before' ++ (id, r) :: after') (connections st1)) as Hm.
    { intros l ->. by destruct before'. }
    rewrite (Hm _ eq_refl), loop_lines_split. simpl.
    f_equal. f_equal. f_equal.
    unfold emitted. simpl. by rewrite drop_app_length.
  - rewrite (run_job_row w' now' st1 before' id r after' Hd').
    by destruct (delivered w' _ (email r) (message r)).
Qed.

(** The server is down at noon: alice's reminder stays unsent; a minute
    later it is taken up again, and delivered. *)
Lemma retry_on_failure_witness :
  db (run_job world_down noon one_row) !! 1 = Some alice
  /\ 1 ∈ processed (emitted (run_job world_down noon one_row)
                      (run_job world_ok noon_01 (run_job world_down noon one_row))).
Proof.
  destruct (retry_on_failure world_down noon one_row [] [] 1 alice)
    as (H1 & _ & H2); [vm_compute; reflexivity | vm_compute; reflexivity |].
  split; [exact H1 |].
  destruct (H2 world_ok noon_01) as (_ & Hp & _); [vm_compute; reflexivity |].
  exact Hp.
Defined.

(** C4. No retry after success. If the send for a due reminder R returns
    [True] in a firing, then R is marked sent when that firing ends; the
    firing takes up each due reminder once, R included; and from then on, after any further requests and firings and for every clock
    reading, R is not among the due reminders and no firing takes it up, so
    [send_email] is never called for it again. *)
Theorem no_retry_after_success (strptime : text -> option datetime)
    (w : World) (now_ist : datetime) (st : State)
    (before after : list (Z * Reminder)) (id : Z) (r : Reminder) :
  due_reminders now_ist (db st) = before ++ (id, r) :: after ->
  (send_email w (email r) (message r) (send_state w before (id, r) st)).1
    = Returned true ->
  db (run_job w now_ist st) !! id = Some (set_sent r)
  /\ processed (emitted st (run_job w now_ist st)) = (due_reminders now_ist (db st)).*1
  /\ NoDup (processed (emitted st (run_job w now_ist st)))
  /\ (forall (w' : World) (ops : list Op) (now' : datetime),
        (id ∉ (due_reminders now'
                 (db (final strptime w' ops (run_job w now_ist st)))).*1)
        /\ (id ∉ processed
                   (emitted (final strptime w' ops (run_job w now_ist st))
                      (run_job w' now' (final strptime w' ops (run_job w now_ist st)))))).
Proof.
  intros Hd. rewrite send_email_value, send_state_connections. intros Hb.
  assert (db (run_job w now_ist st) !! id = Some (set_sent r)) as Hrow.
  { rewrite (run_job_row w now_ist st before id r after Hd).
    by replace (delivered w _ (email r) (message r)) with true by congruence. }
  split; [done |].
  assert (processed (emitted st (run_job w now_ist st))
          = (due_reminders now_ist (db st)).*1) as Honce.
  { destruct (run_job_log w now_ist st) as (lg & Hlg & Hp).
    by rewrite (emitted_app _ _ lg Hlg). }
  split; [done |]. split; [rewrite Honce; apply NoDup_due_keys |].
  intros w' ops now'.
  assert (id ∉ (due_reminders now'
                  (db (final strptime w' ops (run_job w now_ist st)))).*1) as Hout.
  { intros Hin. apply due_key_lookup in Hin as (r' & Hr' & Hs & _).
    assert (sent_of id (final strptime w' ops (run_job w now_ist st)) = Some true) as Hf.
    { apply final_sent. unfold sent_of. by rewrite Hrow. }
    unfold sent_of in Hf. rewrite Hr' in Hf. simpl in Hf. congruence. }
  split; [done |].
  destruct (run_job_log w' now' (final strptime w' ops (run_job w now_ist st)))
    as (lg & Hlg & Hp).
  by rewrite (emitted_app _ _ lg Hlg), Hp.
Qed.

(** The server accepts alice's reminder at noon; a minute later, after one
    more firing and a page view, it is not due and is not taken up. *)
Lemma no_retry_after_success_witness :
  db (run_job world_ok noon one_row) !! 1 = Some (set_sent alice)
  /\ (1 ∉ processed
           (emitted
              (final strptime_iso world_ok [Tick noon_01; Req GET noon_01]
                 (run_job world_ok noon one_row))
              (run_job world_ok noon_01
                 (final strptime_iso world_ok [Tick noon_01; Req GET noon_01]
                    (run_job world_ok noon one_row))))).
Proof.
  destruct (no_retry_after_success strptime_iso world_ok noon one_row [] [] 1 alice)
    as (H1 & _ & _ & H2); [vm_compute; reflexivity | vm_compute; reflexivity |].
  split; [exact H1 |].
  apply (H2 world_ok [Tick noon_01; Req GET noon_01] noon_01).
Defined.

(** ** The sent flag over the life of a row *)

(** C5. Along every sequence of requests and firings, from every state and
    for every key: the flag of the row goes from false to true at most once,
    it never leaves true (no reset, and the row does not vanish), and a row
    never comes into being with the flag set, so a new row starts unsent. *)
Theorem sent_flag_monotone (strptime : text -> option datetime)
    (w : World) (ops : list Op) (st : State) (id : Z) :
  (count_adjacent rises (sent_of id <$> run strptime w ops st) <= 1)%nat
  /\ count_adjacent resets (sent_of id <$> run strptime w ops st) = 0%nat
  /\ count_adjacent born_sent (sent_of id <$> run strptime w ops st) = 0%nat.
Proof. apply history_counts. Qed.

(** A reminder is created, fails once and is then delivered: its flag is
    absent, false, false, true, true. *)
Example sent_flag_history :
  sent_of 2 <$>
    run strptime_iso world_flaky
      [Req (POST (form_of "bob@example.org" "tea" "2026-11-03T12:01")) noon;
       Tick noon_01; Tick noon_01; Tick noon_01]
      one_row
  = [None; Some false; Some false; Some true; Some true].
Proof. vm_compute. reflexivity. Qed.

(** ** Intake *)

Section IntakeFacts.

Variable strptime : text -> option datetime.

Lemma validate_cases to_email msg remind_str now_ist :
  (to_email <> [] /\ msg <> [] /\ remind_str <> [] /\
   exists dt, strptime remind_str = Some dt /\ Datetime.lt now_ist dt /\
              validate strptime to_email msg remind_str now_ist = ([], Some dt))
  \/ ((to_email = [] \/ msg = [] \/ remind_str = [] \/ strptime remind_str = None \/
       exists dt, strptime remind_str = Some dt /\ Datetime.le dt now_ist) /\
      exists e errors o,
        validate strptime to_email msg remind_str now_ist = (e :: errors, o)).
Proof.
  unfold validate.
  destruct remind_str as [| c s]; simpl.
  { right. split; [tauto |].
    destruct to_email, msg; simpl; eauto. }
  destruct (strptime (c :: s)) as [dt |] eqn:Hp.
  - destruct (Datetime.leb dt now_ist) eqn:Hle.
    + right. split; [right; right; right; right; by exists dt |].
      destruct to_email, msg; simpl; eauto.
    + destruct to_email as [| a e]; [right; split; [tauto |]; destruct msg; simpl; eauto |].
      destruct msg as [| b m]; [right; split; [tauto |]; simpl; eauto |].
      left. repeat split; try done. exists dt. repeat split; try done.
      by apply DatetimeFacts.leb_false_ltb.
  - right. split; [tauto |]. destruct to_email, msg; simpl; eauto.
Qed.



End IntakeFacts.



(** ** Marking a reminder sent *)





(** ** Failure classification *)

(** C8, as amended. [send_email] answers with a bare boolean. Missing
    credentials, a refused login, any other SMTP error and any other
    exception all give [False]; what tells them apart is only the line
    logged. The job decides from the boolean alone: two runs of one loop
    iteration from equal tables, in whatever worlds, leave equal tables when
    the two sends return the same value; and a reminder whose send returned
    [False], for whatever cause, keeps its row unchanged and is due again at
    every later clock reading. *)
Theorem send_email_boolean_only (w : World) (st : State) :
  (forall to_email msg,
     configured w = false ->
     send_email w to_email msg st
     = (Returned false,
        {| db := db st; connections := connections st;
           log := log st ++ [ErrNotConfigured] |}))
  /\ (forall (to_email msg : text) e,
        configured w = true ->
        exchange w (connections st) to_email msg = Raised e ->
        send_email w to_email msg st
        = (Returned false,
           {| db := db st; connections := S (connections st);
              log := log st ++ [failure_line e] |}))
  /\ (forall (to_email msg : text),
        configured w = true ->
        exchange w (connections st) to_email msg = Returned tt ->
        send_email w to_email msg st
        = (Returned true,
           {| db := db st; connections := S (connections st);
              log := log st ++ [EmailSent to_email] |}))
  /\ (forall (w' : World) (st' : State) (p : Z * Reminder),
        db st = db st' ->
        (send_email w (email p.2) (message p.2) (send_state w [] p st)).1
        = (send_email w' (email p.2) (message p.2) (send_state w' [] p st')).1 ->
        db (process_reminder w p st).2 = db (process_reminder w' p st').2)
  /\ (forall now_ist before id r after,
        due_reminders now_ist (db st) = before ++ (id, r) :: after ->
        (send_email w (email r) (message r) (send_state w before (id, r) st)).1
          = Returned false ->
        db (run_job w now_ist st) !! id = Some r
        /\ (forall now', Datetime.le now_ist now' ->
              (id, r) ∈ due_reminders now' (db (run_job w now_ist st)))).
Proof.
  split; [| split; [| split; [| split]]].
  - intros to_email msg Hc. rewrite send_email_cases. by rewrite Hc.
  - intros to_email msg e Hc He. rewrite send_email_eq.
    unfold delivered, next_conn, send_line. by rewrite Hc, He.
  - intros to_email msg Hc He. rewrite send_email_eq.
    unfold delivered, next_conn, send_line. by rewrite Hc, He.
  - intros w' st' p Hdb Hb. rewrite !send_email_value in Hb.
    injection Hb as Hb.
    unfold send_state, loop_state in Hb. simpl in Hb.
    rewrite !process_reminder_eq. unfold after_reminder. simpl.
    by rewrite <- Hb, Hdb.
  - intros now_ist before id r after Hd.
    rewrite send_email_value, send_state_connections. intros Hb.
    assert ((id, r) ∈ due_reminders now_ist (db st)) as Hin
      by (rewrite Hd; set_solver).
    apply elem_of_due_reminders in Hin as (Hr & Hs & Hle).
    assert (db (run_job w now_ist st) !! id = Some r) as Hrow.
    { rewrite (run_job_row w now_ist st before id r after Hd).
      by replace (delivered w _ (email r) (message r)) with false by congruence. }
    split; [done |]. intros now' Hnow.
    apply elem_of_due_reminders. repeat split; try done.
    by apply (DatetimeFacts.le_trans _ now_ist).
Qed.

Lemma send_email_boolean_only_witness :
  send_email world_auth (email alice) (message alice) one_row
  = (Returned false,
     {| db := db one_row; connections := 1; log := [ErrAuthentication] |})
  /\ db (run_job world_unconfigured noon one_row) !! 1 = Some alice.
Proof.
  destruct (send_email_boolean_only world_auth one_row) as (_ & Hexc & _).
  destruct (send_email_boolean_only world_unconfigured one_row) as (_ & _ & _ & _ & Hrow).
  split.
  - apply (Hexc (email alice) (message alice) SMTPAuthenticationError);
      vm_compute; reflexivity.
  - apply (Hrow noon [] 1 alice []); vm_compute; reflexivity.
Defined.

(** The line logged for each kind of failure. *)
Example failure_lines :
  failure_line SMTPAuthenticationError = ErrAuthentication
  /\ failure_line SMTPRecipientsRefused = ErrSmtp SMTPRecipientsRefused
  /\ failure_line ConnectionRefusedError = ErrUnexpected ConnectionRefusedError.
Proof. repeat split. Qed.

(** C8 as stated fails: with no credentials, with a refused login and with an
    unreachable server [send_email] returns one and the same value, so the
    result does not tell them apart; and the reminder that failed for want of
    credentials is taken up again at the next firing. *)
Lemma failure_causes_not_distinguished :
  (send_email world_unconfigured (email alice) (message alice) one_row).1
    = Returned false
  /\ (send_email world_auth (email alice) (message alice) one_row).1
    = Returned false
  /\ (send_email world_down (email alice) (message alice) one_row).1
    = Returned false
  /\ processed
       (emitted (run_job world_unconfigured noon one_row)
          (run_job world_unconfigured noon_01
             (run_job world_unconfigured noon one_row)))
     = [1].
Proof. repeat split; vm_compute; reflexivity. Qed.

(** * Further properties of the job and of the handler *)

(** ** The log and the sessions of one firing *)

Lemma send_line_not_marked w n to_email msg id :
  send_line w n to_email msg <> MarkedSent id /\
  send_line w n to_email msg <> WillRetry id.
Proof.
  unfold send_line, failure_line. split; repeat (case_match; try done).
Qed.

Lemma delivered_line w n to_email msg :
  delivered w n to_email msg = true ->
  configured w = true /\ send_line w n to_email msg = EmailSent to_email.
Proof.
  unfold delivered, send_line. destruct (configured w); [| done].
  destruct (exchange w n to_email msg); [done | done].
Qed.

(** What the two closing lines of an iteration say about the table the loop
    leaves, when the loop runs over distinct keys of unsent rows. *)
Lemma loop_outcome w l st id :
  NoDup l.*1 ->
  (forall k r, (k, r) ∈ l -> db st !! k = Some r /\ sent r = false) ->
  (MarkedSent id ∈ loop_lines w l (connections st) <->
   id ∈ l.*1 /\ sent_of id (loop_state w l st) = Some true)
  /\ (WillRetry id ∈ loop_lines w l (connections st) <->
      id ∈ l.*1 /\ sent_of id (loop_state w l st) = Some false).
Proof.
  revert st. induction l as [| [k r] l IH]; intros st Hnd Hrows.
  - simpl. split; split; try (intros [H _]); set_solver.
  - simpl in Hnd. apply NoDup_cons in Hnd as [Hk Hnd].
    destruct (Hrows k r) as [Hr Hs]; [left |].
    assert (loop_state w ((k, r) :: l) st = loop_state w l (after_reminder w (k, r) st)) as Hstep
      by (by rewrite !loop_state_eq).
    assert (forall k' r', (k', r') ∈ l ->
            db (after_reminder w (k, r) st) !! k' = Some r' /\ sent r' = false) as Hrows'.
    { intros k' r' Hin. destruct (Hrows k' r') as [Hr' Hs']; [by right |].
      split; [| done]. unfold after_reminder. simpl.
      destruct (delivered _ _ _ _); [| done].
      rewrite lookup_alter_ne; [done |]. intros ->. apply Hk.
      by apply (list_elem_of_fmap_2 fst _ (k', r')). }
    specialize (IH (after_reminder w (k, r) st) Hnd Hrows') as [IHm IHr].
    change (connections (after_reminder w (k, r) st))
      with (next_conn w (connections st)) in IHm, IHr.
    rewrite Hstep. simpl.
    destruct (send_line_not_marked w (connections st) (email r) (message r) id) as [Hn1 Hn2].
    rewrite !elem_of_cons, IHm, IHr.
    destruct (decide (id = k)) as [-> | Hne].
    + assert (sent_of k (loop_state w l (after_reminder w (k, r) st))
              = Some (delivered w (connections st) (email r) (message r))) as ->.
      { unfold sent_of. rewrite loop_other_rows by done.
        unfold after_reminder. simpl.
        destruct (delivered _ _ _ _); simpl.
        - by rewrite lookup_alter_eq, Hr.
        - rewrite Hr. simpl. by rewrite Hs. }
      destruct (delivered _ _ _ _); split; split; intros H;
        try (destruct H as [H | [H | [H | [H _]]]]; try done);
        try (split; [by left | done]);
        try (destruct H as [_ H]; done);
        try (right; right; by left).
    + split; split; intros H.
      * destruct H as [H | [H | [H | H]]]; try done.
        -- destruct (delivered _ _ _ _); [| done]. by injection H.
        -- destruct H as [H1 H2]. split; [by right | done].
      * destruct H as [[H | H] H2]; [done |]. right; right; right. done.
      * destruct H as [H | [H | [H | H]]]; try done.
        -- destruct (delivered _ _ _ _); [done |]. by injection H.
        -- destruct H as [H1 H2]. split; [by right | done].
      * destruct H as [[H | H] H2]; [done |]. right; right; right. done.
Qed.

Lemma loop_marked_delivery w l n id :
  MarkedSent id ∈ loop_lines w l n ->
  exists r, (id, r) ∈ l /\ EmailSent (email r) ∈ loop_lines w l n
            /\ configured w = true.
Proof.
  revert n. induction l as [| [k r] l IH]; intros n; simpl; [set_solver |].
  destruct (send_line_not_marked w n (email r) (message r) id) as [Hn1 _].
  rewrite !elem_of_cons. intros [H | [H | [H | H]]]; try done.
  - destruct (delivered w n (email r) (message r)) eqn:Hd; [| done].
    injection H as ->. apply delivered_line in Hd as [Hc Hl].
    exists r. split; [by left |]. split; [| done].
    rewrite !elem_of_cons, Hl. by right; left.
  - destruct (IH _ H) as (r' & Hin & He & Hc).
    exists r'. split; [by right |]. split; [| done].
    rewrite !elem_of_cons. by right; right; right.
Qed.

Lemma due_rows now_ist (st : State) k r :
  (k, r) ∈ due_reminders now_ist (db st) -> db st !! k = Some r /\ sent r = false.
Proof. intros H. apply elem_of_due_reminders in H. tauto. Qed.

Lemma run_job_other_rows w now_ist st id :
  id ∉ (due_reminders now_ist (db st)).*1 ->
  db (run_job w now_ist st) !! id = db st !! id.
Proof.
  intros Hid. rewrite run_job_eq.
  destruct (due_reminders now_ist (db st)) as [| p l] eqn:Hd; [done |].
  rewrite <- Hd in *. by apply loop_other_rows.
Qed.

Lemma nothing_due_iff now_ist (t : Table) :
  due_reminders now_ist t = [] <->
  forall id r, t !! id = Some r -> is_due now_ist r = false.
Proof.
  split.
  - intros Hd id r Hr. destruct (is_due now_ist r) eqn:Hdue; [| done].
    assert ((id, r) ∈ due_reminders now_ist t) as Hin.
    { apply elem_of_due_reminders. apply is_due_true in Hdue. tauto. }
    rewrite Hd in Hin. by apply not_elem_of_nil in Hin.
  - intros Hall. destruct (due_reminders now_ist t) as [| [k r] l] eqn:Hd; [done |].
    assert ((k, r) ∈ due_reminders now_ist t) as Hin by (rewrite Hd; left).
    apply elem_of_due_reminders in Hin as (Hr & Hs & Hle).
    specialize (Hall k r Hr). assert (is_due now_ist r = true) by (apply is_due_true; tauto).
    congruence.
Qed.

(** X1. A firing finds nothing due exactly when no row passes the filter, and
    then, and only then, it does nothing but log the one line that says so:
    the table is as it was and no SMTP session is opened. *)
Theorem firing_nothing_due (w : World) (now_ist : datetime) (st : State) :
  (forall id r, db st !! id = Some r -> is_due now_ist r = false) <->
  run_job w now_ist st
  = {| db := db st; connections := connections st;
       log := log st ++ [NoPending now_ist] |}.
Proof.
  rewrite <- nothing_due_iff, run_job_eq.
  destruct (due_reminders now_ist (db st)) as [| p l] eqn:Hd; [done |].
  split; [done |]. intros Heq. exfalso.
  assert (log (loop_state w (p :: l) st) = log st ++ [NoPending now_ist]) as Hlog
    by (by rewrite Heq).
  rewrite loop_log_exact in Hlog. apply app_inv_head in Hlog. discriminate Hlog.
Qed.

(** X2. A firing keeps the set of keys, changes no recipient, message or due
    time, leaves a row that is already sent as it is, and does not touch a
    row that is not due at all. *)
Theorem firing_frame (w : World) (now_ist : datetime) (st : State) (id : Z) :
  dom (db (run_job w now_ist st)) = dom (db st)
  /\ (forall r, db st !! id = Some r ->
        exists r', db (run_job w now_ist st) !! id = Some r'
                   /\ email r' = email r /\ message r' = message r
                   /\ remind_at r' = remind_at r
                   /\ (sent r = true -> r' = r))
  /\ (id ∉ (due_reminders now_ist (db st)).*1 ->
      db (run_job w now_ist st) !! id = db st !! id).
Proof.
  split; [| split].
  - apply set_eq. intros k. rewrite !elem_of_dom.
    destruct (run_job_rows w now_ist st k) as [-> | ->]; [done |].
    by rewrite fmap_is_Some.
  - intros r Hr. destruct (run_job_rows w now_ist st id) as [H | H]; rewrite H, Hr.
    + by exists r.
    + exists (set_sent r). simpl. repeat split; try done.
      intros Hs. by apply set_sent_id.
  - apply run_job_other_rows.
Qed.

Lemma firing_frame_witness :
  db (run_job world_ok noon three_rows) !! 3 = Some carol
  /\ exists r', db (run_job world_ok noon three_rows) !! 1 = Some r'
                /\ email r' = email alice.
Proof.
  destruct (firing_frame world_ok noon three_rows 3) as (_ & _ & H3).
  destruct (firing_frame world_ok noon three_rows 1) as (_ & H1 & _).
  split.
  - rewrite H3; [vm_compute; reflexivity |].
    assert ((due_reminders noon (db three_rows)).*1 = [2; 1]) as ->
      by (vm_compute; reflexivity).
    intros Hin. apply elem_of_cons in Hin as [Hin | Hin]; [lia |].
    apply elem_of_cons in Hin as [Hin | Hin]; [lia |].
    by apply not_elem_of_nil in Hin.
  - destruct (H1 alice) as (r' & Hr' & He & _); [vm_compute; reflexivity |].
    by exists r'.
Defined.

(** X3. With both credentials set a firing opens one SMTP session for each
    due reminder, whether the sessions succeed or fail; with a credential
    missing it opens none. *)
Theorem firing_sessions (w : World) (now_ist : datetime) (st : State) :
  connections (run_job w now_ist st)
  = (connections st
     + if configured w then length (due_reminders now_ist (db st)) else 0)%nat.
Proof.
  rewrite run_job_eq.
  destruct (due_reminders now_ist (db st)) as [| p l] eqn:Hd.
  - simpl. destruct (configured w); lia.
  - apply loop_connections.
Qed.

(** X4. When the credentials are set and the SMTP session of every due
    reminder completes (the whole [with] block: connecting, logging in,
    serialising the message, [sendmail]), one firing marks every due
    reminder sent; nothing is due any more at the same clock reading, so a
    second firing at that reading only logs that nothing is pending. *)
Theorem firing_all_delivered (w : World) (now_ist : datetime) (st : State) :
  configured w = true ->
  (forall id r n, (id, r) ∈ due_reminders now_ist (db st) ->
     exchange w n (email r) (message r) = Returned tt) ->
  (forall id r, (id, r) ∈ due_reminders now_ist (db st) ->
     db (run_job w now_ist st) !! id = Some (set_sent r))
  /\ due_reminders now_ist (db (run_job w now_ist st)) = []
  /\ run_job w now_ist (run_job w now_ist st)
     = {| db := db (run_job w now_ist st);
          connections := connections (run_job w now_ist st);
          log := log (run_job w now_ist st) ++ [NoPending now_ist] |}.
Proof.
  intros Hc Hok.
  assert (forall id r n, (id, r) ∈ due_reminders now_ist (db st) ->
          delivered w n (email r) (message r) = true) as Hdel.
  { intros id r n Hin. unfold delivered. by rewrite Hc, (Hok id r n Hin). }
  assert (forall id r, (id, r) ∈ due_reminders now_ist (db st) ->
          db (run_job w now_ist st) !! id = Some (set_sent r)) as Hmarked.
  { intros id r Hin. pose proof Hin as Hin'.
    apply list_elem_of_split in Hin as (before & after & Hd).
    rewrite (run_job_row w now_ist st before id r after Hd).
    by rewrite (Hdel id r _ Hin'). }
  assert (due_reminders now_ist (db (run_job w now_ist st)) = []) as Hnone.
  { apply nothing_due_iff. intros id r' Hr'.
    destruct (is_due now_ist r') eqn:Hdue; [| done]. exfalso.
    apply is_due_true in Hdue as [Hs Hle].
    destruct (run_job_rows w now_ist st id) as [H | H]; rewrite Hr' in H.
    - assert ((id, r') ∈ due_reminders now_ist (db st)) as Hin
        by (apply elem_of_due_reminders; repeat split; done).
      apply Hmarked in Hin. rewrite Hr' in Hin. injection Hin as Hin.
      rewrite Hin in Hs. done.
    - destruct (db st !! id) as [r0 |]; simpl in H; [| done].
      injection H as ->. done. }
  split; [done |]. split; [done |].
  by rewrite (run_job_eq w now_ist (run_job w now_ist st)), Hnone.
Qed.

Lemma firing_all_delivered_witness :
  due_reminders noon (db (run_job world_ok noon three_rows)) = []
  /\ db (run_job world_ok noon three_rows) !! 2 = Some (set_sent bob).
Proof.
  destruct (firing_all_delivered world_ok noon three_rows) as (Hm & Hn & _);
    [vm_compute; reflexivity | intros; reflexivity |].
  split; [exact Hn |].
  apply Hm. apply elem_of_due_reminders. repeat split; vm_compute; reflexivity.
Defined.

Lemma unconfigured_lines w l n :
  configured w = false ->
  loop_lines w l n
  = l ≫= (fun p => [Processing p.1 (email p.2); ErrNotConfigured; WillRetry p.1]).
Proof.
  intros Hc. revert n. induction l as [| p l IH]; intros n; [done |].
  simpl. rewrite IH. unfold send_line, delivered. by rewrite Hc.
Qed.

Lemma unconfigured_db w l st :
  configured w = false -> db (loop_state w l st) = db st.
Proof.
  intros Hc. rewrite loop_state_eq. revert st.
  induction l as [| p l IH]; intros st; [done |].
  simpl. rewrite IH. unfold after_reminder, delivered. by rewrite Hc.
Qed.

(** X5. With a credential missing a firing changes no row and opens no SMTP
    session: for each due reminder it logs that it takes it up, that the
    credentials are not configured, and that it will retry. *)
Theorem firing_unconfigured (w : World) (now_ist : datetime) (st : State) :
  configured w = false ->
  db (run_job w now_ist st) = db st
  /\ connections (run_job w now_ist st) = connections st
  /\ emitted st (run_job w now_ist st)
     = match due_reminders now_ist (db st) with
       | [] => [NoPending now_ist]
       | _ :: _ =>
           due_reminders now_ist (db st) ≫=
             (fun p => [Processing p.1 (email p.2); ErrNotConfigured; WillRetry p.1])
       end.
Proof.
  intros Hc. split; [| split].
  - rewrite run_job_eq. destruct (due_reminders now_ist (db st)); [done |].
    by apply unconfigured_db.
  - rewrite run_job_eq. destruct (due_reminders now_ist (db st)); [done |].
    rewrite loop_connections, Hc. lia.
  - rewrite run_job_emitted. destruct (due_reminders now_ist (db st)); [done |].
    by apply unconfigured_lines.
Qed.

Lemma firing_unconfigured_witness :
  db (run_job world_unconfigured noon two_rows) = db two_rows
  /\ emitted two_rows (run_job world_unconfigured noon two_rows)
     = [Processing 2 (email bob); ErrNotConfigured; WillRetry 2;
        Processing 1 (email alice); ErrNotConfigured; WillRetry 1].
Proof.
  destruct (firing_unconfigured world_unconfigured noon two_rows) as (Hd & _ & He);
    [reflexivity |].
  split; [exact Hd |]. rewrite He. vm_compute. reflexivity.
Defined.

(** X6. The closing lines of a firing tell what happened to the table: the
    line that a reminder was marked sent is logged exactly for the rows whose
    flag the firing turned from false to true, and the line that it will be
    retried exactly for the due reminders that are still unsent afterwards. *)
Theorem log_matches_table (w : World) (now_ist : datetime) (st : State) (id : Z) :
  (MarkedSent id ∈ emitted st (run_job w now_ist st) <->
   sent_of id st = Some false /\ sent_of id (run_job w now_ist st) = Some true)
  /\ (WillRetry id ∈ emitted st (run_job w now_ist st) <->
      id ∈ (due_reminders now_ist (db st)).*1
      /\ sent_of id (run_job w now_ist st) = Some false).
Proof.
  rewrite run_job_emitted.
  assert (id ∈ (due_reminders now_ist (db st)).*1 -> sent_of id st = Some false) as Hdue.
  { intros Hin. apply due_key_lookup in Hin as (r & Hr & Hs & _).
    unfold sent_of. rewrite Hr. simpl. by rewrite Hs. }
  assert (sent_of id st = Some false ->
          sent_of id (run_job w now_ist st) = Some true ->
          id ∈ (due_reminders now_ist (db st)).*1) as Hflip.
  { intros H1 H2. destruct (decide (id ∈ (due_reminders now_ist (db st)).*1)); [done |].
    unfold sent_of in H2. rewrite run_job_other_rows in H2 by done.
    unfold sent_of in H1. congruence. }
  destruct (due_reminders now_ist (db st)) as [| p l] eqn:Hd.
  - split; split.
    + intros H. apply list_elem_of_singleton in H. discriminate H.
    + intros [H1 H2]. specialize (Hflip H1 H2). by apply not_elem_of_nil in Hflip.
    + intros H. apply list_elem_of_singleton in H. discriminate H.
    + intros [H _]. by apply not_elem_of_nil in H.
  - rewrite <- Hd in *.
    assert (run_job w now_ist st = loop_state w (due_reminders now_ist (db st)) st) as ->.
    { rewrite run_job_eq, Hd. by rewrite <- Hd. }
    assert (run_job w now_ist st = loop_state w (due_reminders now_ist (db st)) st) as Hrun.
    { rewrite run_job_eq, Hd. by rewrite <- Hd. }
    rewrite Hrun in Hflip.
    destruct (loop_outcome w (due_reminders now_ist (db st)) st id
                (NoDup_due_keys now_ist (db st))
                (due_rows now_ist st)) as [Hm Hr].
    split; [| done].
    rewrite Hm. split.
    + intros [H1 H2]. split; [by apply Hdue | done].
    + intros [H1 H2]. split; [by apply Hflip | done].
Qed.

(** X7. A firing sets the flag of a row only after a delivery: if it turns
    the flag of a row from false to true, then the credentials are set, the
    row was due, and the firing logged that an e-mail was sent to the row's
    recipient. *)
Theorem marked_only_after_delivery (w : World) (now_ist : datetime) (st : State)
    (id : Z) :
  sent_of id st = Some false ->
  sent_of id (run_job w now_ist st) = Some true ->
  exists r,
    db st !! id = Some r
    /\ is_due now_ist r = true
    /\ configured w = true
    /\ EmailSent (email r) ∈ emitted st (run_job w now_ist st).
Proof.
  intros H1 H2.
  assert (id ∈ (due_reminders now_ist (db st)).*1) as Hin.
  { destruct (decide (id ∈ (due_reminders now_ist (db st)).*1)); [done |].
    unfold sent_of in H2. rewrite run_job_other_rows in H2 by done.
    unfold sent_of in H1. congruence. }
  assert (run_job w now_ist st = loop_state w (due_reminders now_ist (db st)) st) as Hrun.
  { rewrite run_job_eq. destruct (due_reminders now_ist (db st)) eqn:Hd; [| done].
    by apply not_elem_of_nil in Hin. }
  assert (emitted st (run_job w now_ist st)
          = loop_lines w (due_reminders now_ist (db st)) (connections st)) as Hem.
  { rewrite run_job_emitted. destruct (due_reminders now_ist (db st)) eqn:Hd; [| done].
    by apply not_elem_of_nil in Hin. }
  destruct (loop_outcome w (due_reminders now_ist (db st)) st id
              (NoDup_due_keys now_ist (db st)) (due_rows now_ist st)) as [Hm _].
  rewrite Hrun in H2.
  assert (MarkedSent id ∈ loop_lines w (due_reminders now_ist (db st)) (connections st))
    as Hmarked by (apply Hm; done).
  apply loop_marked_delivery in Hmarked as (r & Hr & He & Hc).
  exists r. apply elem_of_due_reminders in Hr as (Hr & Hs & Hle).
  split; [done |]. split; [apply is_due_true; tauto |]. split; [done |].
  by rewrite Hem.
Qed.

Lemma marked_only_after_delivery_witness :
  exists r, db one_row !! 1 = Some r
            /\ EmailSent (email r) ∈ emitted one_row (run_job world_ok noon one_row).
Proof.
  destruct (marked_only_after_delivery world_ok noon one_row 1)
    as (r & Hr & _ & _ & He); [vm_compute; reflexivity | vm_compute; reflexivity |].
  by exists r.
Defined.

(** ** Stripping *)

Lemma lstrip_nil s : lstrip s = [] <-> blank s.
Proof.
  unfold blank. induction s as [| c s IH]; simpl; [by split |].
  destruct (isspace c) eqn:Hc.
  - rewrite IH. split; [by constructor | by inversion 1].
  - split; [done |]. inversion 1; congruence.
Qed.

Lemma lstrip_head s c : head (lstrip s) = Some c -> isspace c = false.
Proof.
  induction s as [| a s IH]; simpl; [done |].
  destruct (isspace a) eqn:Ha; [done |]. simpl. congruence.
Qed.

Lemma lstrip_snoc s c :
  isspace c = false -> lstrip (s ++ [c]) = lstrip s ++ [c].
Proof.
  intros Hc. induction s as [| a s IH]; simpl; [by rewrite Hc |].
  by destruct (isspace a).
Qed.

Lemma rstrip_cons c s : isspace c = false -> rstrip (c :: s) = c :: rstrip s.
Proof.
  intros Hc. unfold rstrip.
  by rewrite reverse_cons, lstrip_snoc, reverse_app by done.
Qed.

Lemma rstrip_nil s : rstrip s = [] <-> blank s.
Proof.
  unfold rstrip.
  assert (forall x : text, reverse x = [] <-> x = []) as Hrev.
  { intros x. split; [| by intros ->].
    intros H. apply (f_equal reverse) in H. by rewrite reverse_involutive in H. }
  rewrite Hrev, lstrip_nil. unfold blank. by rewrite Forall_reverse.
Qed.

Lemma rstrip_last s c : last (rstrip s) = Some c -> isspace c = false.
Proof. unfold rstrip. rewrite last_reverse. apply lstrip_head. Qed.

Lemma lstrip_blank s : blank (lstrip s) -> blank s.
Proof.
  unfold blank. induction s as [| a s IH]; simpl; [done |].
  destruct (isspace a) eqn:Ha; [| done].
  intros H. constructor; [done | by apply IH].
Qed.

Lemma strip_nil s : strip s = [] <-> blank s.
Proof.
  unfold strip. rewrite rstrip_nil. split; [apply lstrip_blank |].
  intros H. apply lstrip_nil in H. rewrite H. by constructor.
Qed.

Lemma strip_trimmed s : strip s <> [] -> trimmed (strip s).
Proof.
  intros Hne. split; [done |]. split.
  - unfold strip in *. destruct (lstrip s) as [| a t] eqn:Hl; [done |].
    assert (isspace a = false) as Ha by (apply (lstrip_head s); by rewrite Hl).
    rewrite rstrip_cons by done. simpl. congruence.
  - unfold strip. apply rstrip_last.
Qed.

Lemma strip_idempotent s : strip (strip s) = strip s.
Proof.
  destruct (decide (strip s = [])) as [-> | Hne]; [done |].
  destruct (strip_trimmed s Hne) as (_ & Hh & Hl).
  unfold strip at 1.
  assert (lstrip (strip s) = strip s) as ->.
  { destruct (strip s) as [| a t]; [done |]. simpl. by rewrite (Hh a). }
  unfold rstrip.
  assert (lstrip (reverse (strip s)) = reverse (strip s)) as ->.
  { destruct (reverse (strip s)) as [| a t] eqn:Hr; [done |].
    simpl. assert (last (strip s) = Some a) as Ha.
    { rewrite <- (reverse_involutive (strip s)), Hr, last_reverse. done. }
    by rewrite (Hl a Ha). }
  apply reverse_involutive.
Qed.

(** ** The handler *)

Section HandlerFacts.

Variable strptime : text -> option datetime.

Lemma index_rejects form now_ist st e errors o :
  validate strptime (strip (form_get form "email" []))
    (strip (form_get form "message" [])) (strip (form_get form "remind_at" []))
    now_ist = (e :: errors, o) ->
  index strptime (POST form) now_ist st
  = (Returned (RedirectIndex (Danger <$> e :: errors)), st).
Proof. intros Hv. unfold index. by rewrite Hv. Qed.

Lemma index_accepts form now_ist st dt :
  validate strptime (strip (form_get form "email" []))
    (strip (form_get form "message" [])) (strip (form_get form "remind_at" []))
    now_ist = ([], Some dt) ->
  index strptime (POST form) now_ist st
  = (Returned (RedirectIndex [Success (strip (form_get form "email" [])) dt]),
     {| db := <[next_id (db st) :=
                 new_reminder (strip (form_get form "email" []))
                   (strip (form_get form "message" [])) dt]> (db st);
        connections := connections st;
        log := log st ++ [Scheduled (next_id (db st))
                            (strip (form_get form "email" [])) dt] |}).
Proof. intros Hv. unfold index. by rewrite Hv. Qed.

(** What an accepted request was and what it left. *)
Lemma index_accepted form now_ist st to_email dt :
  (index strptime (POST form) now_ist st).1
  = Returned (RedirectIndex [Success to_email dt]) ->
  to_email = strip (form_get form "email" [])
  /\ to_email <> []
  /\ strip (form_get form "message" []) <> []
  /\ strptime (strip (form_get form "remind_at" [])) = Some dt
  /\ Datetime.lt now_ist dt
  /\ (index strptime (POST form) now_ist st).2
     = {| db := <[next_id (db st) :=
                   new_reminder to_email (strip (form_get form "message" [])) dt]> (db st);
          connections := connections st;
          log := log st ++ [Scheduled (next_id (db st)) to_email dt] |}.
Proof.
  destruct (validate_cases strptime (strip (form_get form "email" []))
              (strip (form_get form "message" []))
              (strip (form_get form "remind_at" [])) now_ist)
    as [(He & Hm & Hs & dt' & Hp & Hlt & Hv) | [_ (e & errors & o & Hv)]].
  - rewrite (index_accepts form now_ist st dt' Hv). simpl.
    intros H. injection H as <- <-. done.
  - rewrite (index_rejects form now_ist st e errors o Hv). simpl.
    intros H. discriminate H.
Qed.

(** X8. The handler raises each complaint exactly for its cause and all of
    them together: the recipient, the message and the date are each required;
    a date that is present is either unparsable or not in the future, never
    both; the complaints come in a fixed order, and at most one of them is
    about the date. *)
Theorem validation_errors_exact (to_email msg remind_str : text)
    (now_ist : datetime) :
  (EmailRequired ∈ (validate strptime to_email msg remind_str now_ist).1
   <-> to_email = [])
  /\ (MessageRequired ∈ (validate strptime to_email msg remind_str now_ist).1
      <-> msg = [])
  /\ (DateRequired ∈ (validate strptime to_email msg remind_str now_ist).1
      <-> remind_str = [])
  /\ (InvalidFormat ∈ (validate strptime to_email msg remind_str now_ist).1
      <-> remind_str <> [] /\ strptime remind_str = None)
  /\ (NotInFuture ∈ (validate strptime to_email msg remind_str now_ist).1
      <-> remind_str <> [] /\
          exists dt, strptime remind_str = Some dt /\ Datetime.le dt now_ist)
  /\ (validate strptime to_email msg remind_str now_ist).1 `sublist_of` error_order
  /\ (length (filter (fun e => is_date_error e = true)
                (validate strptime to_email msg remind_str now_ist).1) <= 1)%nat.
Proof.
  unfold validate, error_order, Datetime.le.
  destruct to_email as [| a e], msg as [| b m], remind_str as [| c s]; simpl;
    try (destruct (strptime (c :: s)) as [dt |] eqn:Hp;
         [destruct (Datetime.leb dt now_ist) eqn:Hle |]); simpl;
    (split_and!;
     [rewrite ?elem_of_cons, ?elem_of_nil;
      first [ solve [intuition (try discriminate; try congruence; eauto)]
            | split; [solve [intuition (try discriminate; eauto)] |];
              intros (Hne & dt0 & Heq & Hle0);
              first [ discriminate Heq
                    | injection Heq as <-; first [congruence | by auto] ] ] ..
     | repeat first [apply sublist_skip | apply sublist_cons | apply sublist_nil]
     | vm_compute; lia]).
Qed.

Lemma validate_missing_email msg remind_str now_ist :
  exists errors o,
    validate strptime [] msg remind_str now_ist = (EmailRequired :: errors, o).
Proof.
  unfold validate. simpl.
  destruct msg, remind_str; simpl; repeat case_match; eauto.
Qed.

Lemma validate_missing_message to_email remind_str now_ist :
  exists e errors o,
    validate strptime to_email [] remind_str now_ist = (e :: errors, o)
    /\ MessageRequired ∈ e :: errors.
Proof.
  unfold validate. simpl.
  destruct to_email, remind_str; simpl; repeat case_match;
    do 3 eexists; (split; [reflexivity | set_solver]).
Qed.

Lemma validate_missing_date to_email msg now_ist :
  exists e errors o,
    validate strptime to_email msg [] now_ist = (e :: errors, o)
    /\ DateRequired ∈ e :: errors.
Proof.
  unfold validate. simpl.
  destruct to_email, msg; simpl; do 3 eexists; (split; [reflexivity | set_solver]).
Qed.

(** X9. A field that is missing from the form, empty, or made of white space
    only counts as not given: the request is rejected, the state is left as
    it was, and the complaint for that field is among those flashed; for the
    recipient it is the first one. *)
Theorem blank_field_rejected (form : list (string * text)) (now_ist : datetime)
    (st : State) :
  (blank (form_get form "email" []) ->
   exists errors,
     index strptime (POST form) now_ist st
     = (Returned (RedirectIndex (Danger <$> EmailRequired :: errors)), st))
  /\ (blank (form_get form "message" []) ->
      exists errors,
        MessageRequired ∈ errors /\
        index strptime (POST form) now_ist st
        = (Returned (RedirectIndex (Danger <$> errors)), st))
  /\ (blank (form_get form "remind_at" []) ->
      exists errors,
        DateRequired ∈ errors /\
        index strptime (POST form) now_ist st
        = (Returned (RedirectIndex (Danger <$> errors)), st)).
Proof.
  split; [| split]; intros Hb; apply strip_nil in Hb.
  - destruct (validate_missing_email (strip (form_get form "message" []))
                (strip (form_get form "remind_at" [])) now_ist) as (errors & o & Hv).
    exists errors. apply (index_rejects _ _ _ _ _ o). by rewrite Hb.
  - destruct (validate_missing_message (strip (form_get form "email" []))
                (strip (form_get form "remind_at" [])) now_ist)
      as (e & errors & o & Hv & Hin).
    exists (e :: errors). split; [done |].
    apply (index_rejects _ _ _ _ _ o). by rewrite Hb.
  - destruct (validate_missing_date (strip (form_get form "email" []))
                (strip (form_get form "message" [])) now_ist)
      as (e & errors & o & Hv & Hin).
    exists (e :: errors). split; [done |].
    apply (index_rejects _ _ _ _ _ o). by rewrite Hb.
Qed.

(** X10. What an accepted request stores is trimmed: the recipient and the
    message of the new row are not empty and neither begin nor end with
    white space, and stripping them again changes nothing. *)
Theorem stored_fields_trimmed (form : list (string * text)) (now_ist : datetime)
    (st : State) (to_email : text) (dt : datetime) :
  (index strptime (POST form) now_ist st).1
  = Returned (RedirectIndex [Success to_email dt]) ->
  exists r,
    db (index strptime (POST form) now_ist st).2 !! next_id (db st) = Some r
    /\ email r = to_email
    /\ trimmed (email r) /\ trimmed (message r)
    /\ strip (email r) = email r /\ strip (message r) = message r.
Proof.
  intros Hacc.
  destruct (index_accepted form now_ist st to_email dt Hacc)
    as (He & Hne & Hm & _ & _ & Hst).
  rewrite Hst. simpl. rewrite lookup_insert_eq. eexists. split; [reflexivity |].
  simpl. subst to_email. split; [done |].
  split; [by apply strip_trimmed |]. split; [by apply strip_trimmed |].
  split; apply strip_idempotent.
Qed.

(** X11. A request sends no mail and leaves the reminders there are alone:
    it opens no SMTP session, every row is afterwards as it was, at most one
    row is added, the log is only extended, and a GET changes nothing. *)
Theorem request_frame (req : Request) (now_ist : datetime) (st : State) :
  connections (index strptime req now_ist st).2 = connections st
  /\ (forall id r, db st !! id = Some r ->
        db (index strptime req now_ist st).2 !! id = Some r)
  /\ (size (db (index strptime req now_ist st).2) <= S (size (db st)))%nat
  /\ log st `prefix_of` log (index strptime req now_ist st).2
  /\ (req = GET -> (index strptime req now_ist st).2 = st).
Proof.
  destruct req as [| form]; [simpl; split_and!; try done; lia |].
  destruct (validate_cases strptime (strip (form_get form "email" []))
              (strip (form_get form "message" []))
              (strip (form_get form "remind_at" [])) now_ist)
    as [(He & Hm & Hs & dt & Hp & Hlt & Hv) | [_ (e & errors & o & Hv)]].
  - rewrite (index_accepts form now_ist st dt Hv). simpl.
    split; [done |]. split; [| split; [| split; [| done]]].
    + intros id r Hr. rewrite lookup_insert_ne; [done |].
      intros <-. by rewrite next_id_fresh in Hr.
    + rewrite map_size_insert_None by apply next_id_fresh. lia.
    + by apply prefix_app_r.
  - rewrite (index_rejects form now_ist st e errors o Hv). simpl.
    repeat split; try done. lia.
Qed.

(** X12. A reminder that has just been accepted is not due at the clock
    reading of its creation, and from then on it is among the due reminders
    exactly at the clock readings that have reached its time. *)
Theorem created_due_from_its_time (form : list (string * text))
    (now_ist : datetime) (st : State) (to_email : text) (dt : datetime) :
  (index strptime (POST form) now_ist st).1
  = Returned (RedirectIndex [Success to_email dt]) ->
  db st !! next_id (db st) = None
  /\ (next_id (db st) ∉ (due_reminders now_ist
                           (db (index strptime (POST form) now_ist st).2)).*1)
  /\ (forall now',
        next_id (db st) ∈ (due_reminders now'
                             (db (index strptime (POST form) now_ist st).2)).*1
        <-> Datetime.le dt now').
Proof.
  intros Hacc.
  destruct (index_accepted form now_ist st to_email dt Hacc)
    as (_ & _ & _ & _ & Hlt & Hst).
  rewrite Hst. simpl. split; [apply next_id_fresh |].
  assert (forall now',
            next_id (db st) ∈ (due_reminders now'
              (<[next_id (db st) :=
                  new_reminder to_email (strip (form_get form "message" [])) dt]> (db st))).*1
            <-> Datetime.le dt now') as Hiff.
  { intros now'. rewrite due_key_lookup. rewrite lookup_insert_eq. split.
    - intros (r & Hr & _ & Hle). injection Hr as <-. done.
    - intros Hle. eexists. split; [reflexivity |]. by split. }
  split; [| done].
  rewrite Hiff. by apply DatetimeFacts.lt_not_le.
Qed.

End HandlerFacts.

Lemma accepted_request :
  (index strptime_iso
     (POST (form_of " dana@example.org " "call mom" "2030-01-01T09:00"))
     noon one_row).1
  = Returned (RedirectIndex [Success (py "dana@example.org") (at_ymdhm 2030 1 1 9 0)]).
Proof. vm_compute. reflexivity. Defined.

Lemma request_frame_witness :
  db (index strptime_iso
        (POST (form_of "dana@example.org" "call mom" "2030-01-01T09:00"))
        noon one_row).2 !! 1 = Some alice.
Proof.
  destruct (request_frame strptime_iso
              (POST (form_of "dana@example.org" "call mom" "2030-01-01T09:00"))
              noon one_row) as (_ & Hrows & _).
  apply (Hrows 1 alice). vm_compute. reflexivity.
Defined.

Lemma blank_field_rejected_witness :
  exists errors,
    index strptime_iso (POST [("message"%string, py "call mom")]) noon one_row
    = (Returned (RedirectIndex (Danger <$> EmailRequired :: errors)), one_row).
Proof.
  destruct (blank_field_rejected strptime_iso
              [("message"%string, py "call mom")] noon one_row) as (He & _).
  apply He. vm_compute. constructor.
Defined.

Lemma stored_fields_trimmed_witness :
  exists r,
    db (index strptime_iso
          (POST (form_of " dana@example.org " "call mom" "2030-01-01T09:00"))
          noon one_row).2 !! next_id (db one_row) = Some r
    /\ email r = py "dana@example.org".
Proof.
  destruct (stored_fields_trimmed strptime_iso _ _ _ _ _ accepted_request)
    as (r & Hr & He & _).
  by exists r.
Defined.

Lemma created_due_from_its_time_witness :
  next_id (db one_row)
  ∉ (due_reminders noon
       (db (index strptime_iso
              (POST (form_of " dana@example.org " "call mom" "2030-01-01T09:00"))
              noon one_row).2)).*1.
Proof.
  destruct (created_due_from_its_time strptime_iso _ _ _ _ _ accepted_request)
    as (_ & H & _).
  exact H.
Defined.

(** ** Which clause catches what *)

(** X13. When the SMTP session raises, the clause that reports it is chosen
    by class, the first that fits: the line about authentication is logged
    exactly for an authentication error, although that is an SMTP error too;
    the line about an SMTP error for every other class under
    [SMTPException]; and the line about an unexpected error for everything
    else, a refused connection or a timeout included. *)
Theorem except_clause_dispatch (w : World) (to_email msg : text) (st : State)
    (e : ExcClass) :
  configured w = true ->
  exchange w (connections st) to_email msg = Raised e ->
  exists line,
    log (send_email w to_email msg st).2 = log st ++ [line]
    /\ (line = ErrAuthentication <-> e = SMTPAuthenticationError)
    /\ (line = ErrSmtp e <->
        issubclass e SMTPException = true /\ e <> SMTPAuthenticationError)
    /\ (line = ErrUnexpected e <-> issubclass e SMTPException = false).
Proof.
  intros Hc He. exists (failure_line e). split.
  - rewrite send_email_eq. simpl. unfold send_line. by rewrite Hc, He.
  - destruct e; vm_compute; intuition (try discriminate; try congruence).
Qed.

Lemma except_clause_dispatch_witness :
  log (send_email world_down (email alice) (message alice) one_row).2
  = [ErrUnexpected ConnectionRefusedError].
Proof.
  destruct (except_clause_dispatch world_down (email alice) (message alice)
              one_row ConnectionRefusedError)
    as (line & Hlog & _ & _ & Hun); [reflexivity | reflexivity |].
  rewrite Hlog. simpl. f_equal. apply Hun. reflexivity.
Defined.

(** ** Rows over the life of the system *)

Section LifeFacts.

Variable strptime : text -> option datetime.

(** X14. No sequence of requests and firings deletes a reminder or edits
    it: a row that exists stays under its key with the same recipient, the
    same message and the same due time. *)
Theorem rows_never_edited (w : World) (ops : list Op) (st : State) (id : Z)
    (r : Reminder) :
  db st !! id = Some r ->
  exists r',
    db (final strptime w ops st) !! id = Some r'
    /\ email r' = email r
    /\ message r' = message r
    /\ remind_at r' = remind_at r.
Proof.
  revert st r. induction ops as [| op ops IH]; intros st r Hr.
  - by exists r.
  - simpl. pose proof (step_row strptime w op st id) as Hstep. rewrite Hr in Hstep.
    destruct Hstep as [Hs | Hs]; destruct (IH _ _ Hs) as (r' & Hr' & He & Hm & Ht);
      exists r'; by rewrite Hr', He, Hm, Ht.
Qed.

End LifeFacts.

(** Alice's reminder after a failed firing, a new request and a delivery. *)
Lemma rows_never_edited_witness :
  exists r',
    db (final strptime_iso world_flaky
          [Tick noon;
           Req (POST (form_of "bob@example.org" "tea" "2026-11-03T12:01")) noon;
           Tick noon_01]
          one_row) !! 1 = Some r'
    /\ email r' = email alice.
Proof.
  destruct (rows_never_edited strptime_iso world_flaky
              [Tick noon;
               Req (POST (form_of "bob@example.org" "tea" "2026-11-03T12:01")) noon;
               Tick noon_01]
              one_row 1 alice) as (r' & Hr' & He & _); [vm_compute; reflexivity |].
  by exists r'.
Defined.
